(** * A2C: Advantage Actor-Critic learners ([A2C.py])

    A shallow embedding of the training loop, the return computation, the
    action encoding and the numerical guards of the discrete and continuous
    actors, together with the properties stated about them.

    Numbers.  The tensors of the program hold float32 values; here they are
    idealised as real numbers ([R]): rounding, overflow and NaN are outside
    the model.  Actions of the discrete learner are integers ([Z]). *)

From Stdlib Require Import List ZArith Lia Reals Lra Bool.
From Stdlib Require String.
Import String.StringSyntax.
Import ListNotations.
Delimit Scope string_scope with string.

Local Open Scope R_scope.

(** ** Numeric helpers standing for the numpy / TensorFlow primitives *)

(** [np.sum], [tf.reduce_sum] over one axis. *)
Definition sum_R (l : list R) : R := fold_right Rplus 0 l.

(** Element-wise binary operation on two vectors ([tf.multiply] on equal shapes). *)
Fixpoint map2 {A B C : Type} (f : A -> B -> C) (l1 : list A) (l2 : list B) : list C :=
  match l1, l2 with
  | x :: l1', y :: l2' => f x y :: map2 f l1' l2'
  | _, _ => []
  end.

(** [np.mean] of a vector. *)
Definition mean_R (l : list R) : R := sum_R l / INR (length l).

(** ** Return computation ([utils.discount_rewards]) *)

(** Modelled from the spec: [discount_rewards] is imported from [utils] and
    not defined in [A2C.py].  The value at step [t] is the decayed
    suffix sum r_t + gamma*r_{t+1} + ... + gamma^(T-1-t)*r_{T-1}. *)
Definition decayed_suffix_sum (gamma : R) (r : list R) (t : nat) : R :=
  sum_R (map (fun k => gamma ^ (k - t) * nth k r 0) (seq t (length r - t))).

(** Modelled from the spec: the same-length sequence of decayed suffix sums,
    without clipping or normalization. *)
Definition discount_rewards (r : list R) (gamma : R) : list R :=
  map (decayed_suffix_sum gamma r) (seq 0 (length r)).

(** The right-to-left recurrence, as a second definition to compare with. *)
Fixpoint discount_rec (r : list R) (gamma : R) : list R :=
  match r with
  | [] => []
  | x :: r' => (x + gamma * hd 0 (discount_rec r' gamma)) :: discount_rec r' gamma
  end.

(** ** Discrete actor: action encoding and guarded logarithm *)

(** [np.arange(self.nA)] (line 63). *)
Definition arange (n : nat) : list Z := map Z.of_nat (seq 0 n).

(** Line 70: [(possible_actions == all_action[:, None]).astype(np.float32)];
    row [i] compares every possible action with [all_action[i]]. *)
Definition one_hot (possible_actions all_action : list Z) : list (list R) :=
  map (fun a => map (fun p => if Z.eqb p a then 1 else 0) possible_actions)
      all_action.

(** Line 115: [tf.reduce_sum(tf.multiply(prob_na, actions_taken), [1])]. *)
Definition good_probabilities (prob_na actions_taken : list (list R)) : list R :=
  map2 (fun p a => sum_R (map2 Rmult p a)) prob_na actions_taken.

(** Line 116, the argument of [tf.log]:
    [tf.where(tf.equal(g, 0.0), 1e-30, g)], element by element. *)
Definition floor_probability (g : R) : R :=
  if Req_dec_T g 0 then 1e-30 else g.

(** Lines 116-117: [tf.log(...) * (critic_rewards - critic_feedback)]. *)
Definition eligibility (good critic_rewards critic_feedback : list R) : list R :=
  map2 Rmult (map (fun g => ln (floor_probability g)) good)
             (map2 Rminus critic_rewards critic_feedback).

(** Line 118: [loss = -tf.reduce_mean(eligibility)]. *)
Definition actor_loss (prob_na actions_taken : list (list R))
    (critic_rewards critic_feedback : list R) : R :=
  - mean_R (eligibility (good_probabilities prob_na actions_taken)
                        critic_rewards critic_feedback).

(** Number of entries of a row equal to one. *)
Definition count_ones (row : list R) : nat :=
  length (filter (fun x => if Req_dec_T x 1 then true else false) row).

(** ** Continuous actor: Gaussian head and clipped sample *)

(** Weights of the two independent linear projections (lines 165-177). *)
Record actor_params : Type := {
  mu_w : list R; mu_b : R;
  sigma_w : list R; sigma_b : R
}.

(** [fully_connected] with one output and no activation. *)
Definition fully_connected (w : list R) (b : R) (input : list R) : R :=
  sum_R (map2 Rmult input w) + b.

(** [tf.nn.softplus]: log(exp(x) + 1). *)
Definition softplus (x : R) : R := ln (exp x + 1).

(** Line 178: [sigma = tf.nn.softplus(sigma) + 1e-5], on the logit. *)
Definition floored_sigma (logit : R) : R := softplus logit + 1e-5.

Definition actor_mu (theta : actor_params) (input_state : list R) : R :=
  fully_connected (mu_w theta) (mu_b theta) input_state.

Definition actor_sigma (theta : actor_params) (input_state : list R) : R :=
  floored_sigma (fully_connected (sigma_w theta) (sigma_b theta) input_state).

(** [Normal(mu, sigma).sample_n(1)]: the standard normal draw [z] comes from
    the random generator; the sample is [z * sigma + mu]. *)
Definition normal_sample (mu sigma z : R) : R := z * sigma + mu.

(** [tf.clip_by_value(t, lo, hi)]: maximum(minimum(t, hi), lo). *)
Definition clip_by_value (t lo hi : R) : R := Rmax (Rmin t hi) lo.

(** The continuous agent after [build_networks]: the actor weights and the
    two bounds read from [action_space.low[0]] and [action_space.high[0]]. *)
Record continuous_agent : Type := {
  theta : actor_params;
  clip_low : R;
  clip_high : R
}.

(** Lines 180-182 read index 0 of both bound arrays; an empty array has no
    index 0 (IndexError), rendered as [None]. *)
Definition build_clip (th : actor_params) (low high : list R) : option continuous_agent :=
  match low, high with
  | l0 :: _, h0 :: _ => Some {| theta := th; clip_low := l0; clip_high := h0 |}
  | _, _ => None
  end.

(** Lines 218-220 with 180-182: one sample, clipped; the result is an array of
    one element. *)
Definition choose_action (ag : continuous_agent) (input_state : list R) (z : R) : list R :=
  [clip_by_value (normal_sample (actor_mu (theta ag) input_state)
                                (actor_sigma (theta ag) input_state) z)
                 (clip_low ag) (clip_high ag)].

(** ** Exceptions and the state-and-exception monad *)

Inductive exn : Type :=
| KeyboardInterrupt
| SystemExit
| NotImplementedError
| ValueError
| OtherError.

Inductive result (T : Type) : Type :=
| Ok (v : T)
| Raise (e : exn).
Arguments Ok {T} v.
Arguments Raise {T} e.

(** A computation over a store [S] that returns or raises. *)
Definition M (S T : Type) : Type := S -> result T * S.

Definition ret {S T : Type} (v : T) : M S T := fun s => (Ok v, s).

Definition raise {S T : Type} (e : exn) : M S T := fun s => (Raise e, s).

Definition bind {S T U : Type} (c : M S T) (k : T -> M S U) : M S U :=
  fun s => match c s with
           | (Ok v, s') => k v s'
           | (Raise e, s') => (Raise e, s')
           end.

(** [try: body  except ...: handler]. *)
Definition try_except {S T : Type} (body : M S T) (handler : exn -> M S T) : M S T :=
  fun s => match body s with
           | (Ok v, s') => (Ok v, s')
           | (Raise e, s') => handler e s'
           end.

Declare Scope monad_scope.
Delimit Scope monad_scope with monad.
Notation "x <- c ;; k" := (bind c (fun x => k))
  (at level 61, c at next level, right associativity) : monad_scope.
Notation "c ;;; k" := (bind c (fun _ => k))
  (at level 61, right associativity) : monad_scope.

(** [for x in l: s = body(x, s)], the loop-carried variables being [s]. *)
Fixpoint for_each {S X V : Type} (l : list X) (body : X -> V -> M S V) (v : V) : M S V :=
  match l with
  | [] => ret v
  | x :: l' => bind (body x v) (for_each l' body)
  end.

(** [np.concatenate] of a Python list of arrays: an empty list raises
    ValueError. *)
Definition np_concatenate {S T : Type} (arrays : list (list T)) : M S (list T) :=
  match arrays with
  | [] => raise ValueError
  | _ => ret (concat arrays)
  end.

(** ** Trajectories, configuration and the feed of one update *)

(** One episode as the collector returns it: a dict of three arrays. *)
Record trajectory (A : Type) : Type := {
  state : list (list R);
  action : list A;
  reward : list R
}.
Arguments state {A} t.
Arguments action {A} t.
Arguments reward {A} t.

(** The three arrays of a collected episode have one entry per step. *)
Definition well_formed {A : Type} (t : trajectory A) : Prop :=
  length (state t) = length (reward t) /\ length (action t) = length (reward t).

Inductive batch_mode : Type := Timesteps | Trajectories.

(** [self.config] (lines 31-43). *)
Record config : Type := {
  episode_max_length : option nat;
  timesteps_per_batch : nat;
  trajectories_per_batch : nat;
  batch_update : batch_mode;
  n_iter : nat;
  gamma : R;
  actor_learning_rate : R;
  critic_learning_rate : R;
  actor_n_hidden : nat;
  critic_n_hidden : nat;
  repeat_n_actions : nat
}.

Definition default_config (max_steps : option nat) : config := {|
  episode_max_length := max_steps;
  timesteps_per_batch := 2000;
  trajectories_per_batch := 10;
  batch_update := Timesteps;
  n_iter := 400;
  gamma := 0.99;
  actor_learning_rate := 0.01;
  critic_learning_rate := 0.05;
  actor_n_hidden := 20;
  critic_n_hidden := 20;
  repeat_n_actions := 1
|}.

(** The [feed_dict] of the training run (lines 79-88 and 240-249); [X] is the
    type of the encoded actions.  [actor_input] is called [input_state] in the
    continuous learner. *)
Record feed_dict (X : Type) : Type := {
  critic_state_in : list (list R);
  critic_target : list R;
  actor_input : list (list R);
  actions_taken : X;
  critic_feedback : list R;
  critic_rewards : list R;
  rewards : R;
  episode_lengths : R
}.
Arguments critic_state_in {X} f.
Arguments critic_target {X} f.
Arguments actor_input {X} f.
Arguments actions_taken {X} f.
Arguments critic_feedback {X} f.
Arguments critic_rewards {X} f.
Arguments rewards {X} f.
Arguments episode_lengths {X} f.

(** What a run does, in order: every completed call of a collaborator. *)
Inductive event (A X : Type) : Type :=
| EvCollect (trajectories : list (trajectory A))
| EvCriticValue (all_state : list (list R)) (value : list R)
| EvTrain (feed : feed_dict X)
| EvAddSummary (iteration : nat)
| EvFlush
| EvReport (iteration : nat) (episode_rewards : list R)
           (episode_lengths : list nat) (total_n_trajectories : nat).
Arguments EvCollect {A X} trajectories.
Arguments EvCriticValue {A X} all_state value.
Arguments EvTrain {A X} feed.
Arguments EvAddSummary {A X} iteration.
Arguments EvFlush {A X}.
Arguments EvReport {A X} iteration episode_rewards episode_lengths total_n_trajectories.

(** The collaborators of [learn]: the trajectory collector of [Learner], the
    TensorFlow session with its two kinds of run, the summary writer and the
    reporter.  None of them is defined in [A2C.py]; each acts on the world
    (environment, random generator, network parameters, files, console) and
    returns or raises.  The value query reads the world without changing it. *)
Class Session (World A X Summary : Type) : Type := {
  get_trajectories : M World (list (trajectory A));
  critic_value : list (list R) -> World -> result (list R);
  run_train : feed_dict X -> M World Summary;
  add_summary : Summary -> nat -> M World unit;
  flush : M World unit;
  print_iteration_stats : nat -> list R -> list nat -> nat -> M World unit
}.

(** The world together with the record of what has been done to it. *)
Record machine (World A X : Type) : Type := {
  world : World;
  trace : list (event A X)
}.
Arguments world {World A X} m.
Arguments trace {World A X} m.

(** Run a collaborator; a completed call is recorded, a raising one is not. *)
Definition perform {World A X T : Type} (op : M World T)
    (ev : T -> event A X) : M (machine World A X) T :=
  fun m => match op (world m) with
           | (Ok v, w') => (Ok v, {| world := w'; trace := trace m ++ [ev v] |})
           | (Raise e, w') => (Raise e, {| world := w'; trace := trace m |})
           end.

Local Open Scope monad_scope.

Section Learn.
Context {World A X Summary : Type} {Sess : Session World A X Summary}.

(** [get_critic_value] (lines 56-57). *)
Definition get_critic_value (all_state : list (list R))
    : M (machine World A X) (list R) :=
  perform (fun w => (critic_value all_state w, w)) (EvCriticValue all_state).

(** The feed of lines 79-88. *)
Definition make_feed (all_state : list (list R)) (returns : list R)
    (all_action : X) (qw_new : list R) (episode_rewards : list R)
    (episode_lens : list nat) : feed_dict X := {|
  critic_state_in := all_state;
  critic_target := returns;
  actor_input := all_state;
  actions_taken := all_action;
  critic_feedback := qw_new;
  critic_rewards := returns;
  rewards := mean_R episode_rewards;
  episode_lengths := mean_R (map INR episode_lens)
|}.

(** The body of the loop (lines 67-92 and 229-253); [encode] is the action
    encoding of line 70, the identity in the continuous learner.  The
    loop-carried variable is [total_n_trajectories]. *)
Definition learn_iteration (encode : list A -> X) (cfg : config)
    (iteration total_n_trajectories : nat) : M (machine World A X) nat :=
  trajectories <- perform get_trajectories EvCollect ;;
  let total_n_trajectories := (total_n_trajectories + length trajectories)%nat in
  all_action <- np_concatenate (map action trajectories) ;;
  let all_action := encode all_action in
  all_state <- np_concatenate (map state trajectories) ;;
  returns <- np_concatenate
               (map (fun t => discount_rewards (reward t) (gamma cfg)) trajectories) ;;
  qw_new <- get_critic_value all_state ;;
  let episode_rewards := map (fun t => sum_R (reward t)) trajectories in
  let episode_lens := map (fun t => length (reward t)) trajectories in
  let feed := make_feed all_state returns all_action qw_new
                        episode_rewards episode_lens in
  results <- perform (run_train feed) (fun _ => EvTrain feed) ;;
  perform (add_summary results iteration) (fun _ => EvAddSummary iteration) ;;;
  perform flush (fun _ => EvFlush) ;;;
  perform (print_iteration_stats iteration episode_rewards episode_lens
                                 total_n_trajectories)
          (fun _ => EvReport iteration episode_rewards episode_lens
                             total_n_trajectories) ;;;
  ret total_n_trajectories.

(** [for iteration in range(config["n_iter"]): ...] (lines 65 and 227). *)
Definition learn (encode : list A -> X) (cfg : config) : M (machine World A X) unit :=
  for_each (seq 0 (n_iter cfg)) (learn_iteration encode cfg) 0%nat ;;; ret tt.
End Learn.

(** [A2C.learn], used by the discrete learner: actions are encoded by line 70. *)
Definition A2C_learn {World Summary : Type}
    {Sess : Session World Z (list (list R)) Summary} (nA : nat) (cfg : config)
    : M (machine World Z (list (list R))) unit :=
  learn (one_hot (arange nA)) cfg.

(** [A2CContinuous.learn]: the same loop without line 70. *)
Definition A2CContinuous_learn {World Summary : Type}
    {Sess : Session World R (list R) Summary} (cfg : config)
    : M (machine World R (list R)) unit :=
  learn (fun all_action => all_action) cfg.

(** The pooled returns of line 73 and 234, as a function of the batch. *)
Definition pooled_returns {A : Type} (g : R) (trajectories : list (trajectory A)) : list R :=
  concat (map (fun t => discount_rewards (reward t) g) trajectories).

(** Number of training runs recorded in a trace. *)
Definition count_train {A X : Type} (evs : list (event A X)) : nat :=
  length (filter (fun e => match e with EvTrain _ => true | _ => false end) evs).

(** The feed of one update as a function of the collected batch and of the
    critic's values. *)
Definition batch_feed {A X : Type} (encode : list A -> X) (cfg : config)
    (trajectories : list (trajectory A)) (qw_new : list R) : feed_dict X :=
  make_feed (concat (map state trajectories))
            (pooled_returns (gamma cfg) trajectories)
            (encode (concat (map action trajectories)))
            qw_new
            (map (fun t => sum_R (reward t)) trajectories)
            (map (fun t => length (reward t)) trajectories).

(** The record of one iteration up to and including its update. *)
Definition update_events {A X : Type} (encode : list A -> X) (cfg : config)
    (trajectories : list (trajectory A)) (qw_new : list R) : list (event A X) :=
  [ EvCollect trajectories;
    EvCriticValue (concat (map state trajectories)) qw_new;
    EvTrain (batch_feed encode cfg trajectories qw_new) ].

(** The record of what follows the update in one iteration. *)
Definition closing_events {A X : Type} (iteration total : nat)
    (trajectories : list (trajectory A)) : list (event A X) :=
  [ EvAddSummary iteration;
    EvFlush;
    EvReport iteration (map (fun t => sum_R (reward t)) trajectories)
             (map (fun t => length (reward t)) trajectories) total ].

(** The record of one complete iteration. *)
Definition iteration_events {A X : Type} (encode : list A -> X) (cfg : config)
    (iteration total : nat) (trajectories : list (trajectory A)) (qw_new : list R)
    : list (event A X) :=
  update_events encode cfg trajectories qw_new
  ++ closing_events iteration total trajectories.

(** The record of consecutive complete iterations, from iteration number
    [iteration] and running total [total], one per collected batch. *)
Fixpoint run_events {A X : Type} (encode : list A -> X) (cfg : config)
    (iteration total : nat) (batches : list (list (trajectory A) * list R))
    : list (event A X) :=
  match batches with
  | [] => []
  | (ts, qw) :: rest =>
      iteration_events encode cfg iteration (total + length ts) ts qw
      ++ run_events encode cfg (S iteration) (total + length ts) rest
  end.

(** Collaborators that always return: the collector yields a non-empty
    batch, and no call raises. *)
Definition responsive {World A X Summary : Type}
    (Sess : Session World A X Summary) : Prop :=
  (forall w, exists ts w', get_trajectories w = (Ok ts, w') /\ ts <> []) /\
  (forall s w, exists v, critic_value s w = Ok v) /\
  (forall f w, exists sm w', run_train f w = (Ok sm, w')) /\
  (forall sm i w, exists w', add_summary sm i w = (Ok tt, w')) /\
  (forall w, exists w', flush w = (Ok tt, w')) /\
  (forall i er el n w, exists w', print_iteration_stats i er el n w = (Ok tt, w')).

(** Total number of steps of a batch, as line 77 measures episodes. *)
Definition batch_size {A : Type} (trajectories : list (trajectory A)) : nat :=
  list_sum (map (fun t => length (reward t)) trajectories).

(** ** The program's entry point *)

Inductive action_space : Type :=
| Discrete (n : nat)
| Box (low high : list R)
| OtherSpace.

Record args : Type := { environment : String.string; monitor_path : String.string }.

Inductive agent : Type :=
| A2CDiscrete (nA : nat)
| A2CContinuous.

(** What [main] calls: the argument parser, gym, the two constructors (which
    build the networks and open the session), the monitor wrapper, and the
    collaborators of the two learners. *)
Class Runtime (World Summary : Type) : Type := {
  parse_args : M World args;
  gym_make : String.string -> M World (action_space * option nat);
  A2CDiscrete_init : nat -> String.string -> M World unit;
  A2CContinuous_init : list R -> list R -> String.string -> M World unit;
  wrappers_Monitor : String.string -> M World unit;
  discrete_session : Session World Z (list (list R)) Summary;
  continuous_session : Session World R (list R) Summary
}.

(** Run a learner from the world alone, dropping the record of events. *)
Definition in_world {World A X T : Type} (c : M (machine World A X) T) : M World T :=
  fun w => let (r, m) := c {| world := w; trace := [] |} in (r, world m).

Section Main.
Context {World Summary : Type} {RT : Runtime World Summary}.

(** [agent.learn()]: dispatch on the class of the agent. *)
Definition agent_learn (ag : agent) (cfg : config) : M World unit :=
  match ag with
  | A2CDiscrete nA => in_world (A2C_learn (Sess := discrete_session) nA cfg)
  | A2CContinuous => in_world (A2CContinuous_learn (Sess := continuous_session) cfg)
  end.

(** Lines 261-273: everything before the guarded block. *)
Definition setup : M World (agent * config * args) :=
  a <- try_except parse_args (fun _ => raise SystemExit) ;;
  env <- gym_make (environment a) ;;
  match fst env with
  | Discrete n =>
      A2CDiscrete_init n (monitor_path a) ;;;
      ret (A2CDiscrete n, default_config (snd env), a)
  | Box low high =>
      A2CContinuous_init low high (monitor_path a) ;;;
      ret (A2CContinuous, default_config (snd env), a)
  | OtherSpace => raise NotImplementedError
  end.

(** Lines 274-278: the block guarded against KeyboardInterrupt. *)
Definition guarded_learn (ag : agent) (cfg : config) (a : args) : M World unit :=
  try_except
    (wrappers_Monitor (monitor_path a) ;;; agent_learn ag cfg)
    (fun e => match e with
              | KeyboardInterrupt => ret tt
              | _ => raise e
              end).

Definition main : M World unit :=
  s <- setup ;;
  let '(ag, cfg, a) := s in
  guarded_learn ag cfg a.
End Main.

Local Close Scope monad_scope.

(** ** Sample collaborators

    A deterministic world for the examples: the world is the number of
    batches collected so far; every batch is the same single trajectory; the
    collector raises KeyboardInterrupt once [interrupt_at] batches have been
    collected, and never if [interrupt_at] is [None]. *)

Definition sample_discrete_trajectory : trajectory Z :=
  {| state := [[0]; [1]]; action := [1%Z; 0%Z]; reward := [1; 2] |}.

Definition sample_continuous_trajectory : trajectory R :=
  {| state := [[0]; [1]; [2]]; action := [0.5; -1; 2]; reward := [1; 0; 1] |}.

Definition counting_session {A X : Type} (t : trajectory A)
    (interrupt_at : option nat) : Session nat A X unit := {|
  get_trajectories := fun w =>
    match interrupt_at with
    | Some k => if (k <=? w)%nat then (Raise KeyboardInterrupt, w) else (Ok [t], S w)
    | None => (Ok [t], S w)
    end;
  critic_value := fun all_state w => Ok (map (fun _ => INR w) all_state);
  run_train := fun _ w => (Ok tt, w);
  add_summary := fun _ _ w => (Ok tt, w);
  flush := fun w => (Ok tt, w);
  print_iteration_stats := fun _ _ _ _ w => (Ok tt, w)
|}.

Definition sample_args : args :=
  {| environment := "CartPole-v0"%string; monitor_path := "/tmp/monitor"%string |}.

Definition sample_runtime (make : M nat (action_space * option nat))
    (interrupt_at : option nat) : Runtime nat unit := {|
  parse_args := fun w => (Ok sample_args, w);
  gym_make := fun _ => make;
  A2CDiscrete_init := fun _ _ w => (Ok tt, w);
  A2CContinuous_init := fun _ _ _ w => (Ok tt, w);
  wrappers_Monitor := fun _ w => (Ok tt, w);
  discrete_session := counting_session sample_discrete_trajectory interrupt_at;
  continuous_session := counting_session sample_continuous_trajectory interrupt_at
|}.

(** The same runtime, except that both constructors are interrupted. *)
Definition sample_runtime_interrupted_init
    (make : M nat (action_space * option nat)) : Runtime nat unit := {|
  parse_args := fun w => (Ok sample_args, w);
  gym_make := fun _ => make;
  A2CDiscrete_init := fun _ _ w => (Raise KeyboardInterrupt, S w);
  A2CContinuous_init := fun _ _ _ w => (Raise KeyboardInterrupt, S w);
  wrappers_Monitor := fun _ w => (Ok tt, w);
  discrete_session := counting_session sample_discrete_trajectory None;
  continuous_session := counting_session sample_continuous_trajectory None
|}.

Definition sample_config (n : nat) : config := {|
  episode_max_length := Some 200%nat;
  timesteps_per_batch := 2;
  trajectories_per_batch := 1;
  batch_update := Trajectories;
  n_iter := n;
  gamma := 0.5;
  actor_learning_rate := 0.01;
  critic_learning_rate := 0.05;
  actor_n_hidden := 20;
  critic_n_hidden := 20;
  repeat_n_actions := 1
|}.

(** ** Further parts of the networks and of the record of a run *)

(** Line 135, [self.critic_target - self.critic_value] in the discrete
    learner: the target has shape [N] and the value shape [N, 1] (the matmul
    is not squeezed), so the difference broadcasts to a matrix whose entry
    [(i, j)] is [target[j] - value[i]]. *)
Definition broadcast_difference (target value : list R) : list (list R) :=
  map (fun v => map (fun t => t - v) target) value.

(** Line 135: [tf.reduce_mean(tf.square(...))], the mean over all entries. *)
Definition discrete_critic_loss (target value : list R) : R :=
  mean_R (map (fun d => d * d) (concat (broadcast_difference target value))).

(** Lines 204-206 in the continuous learner: the value is squeezed to shape
    [N] and [tf.squared_difference] is taken entry by entry. *)
Definition continuous_critic_loss (target value : list R) : R :=
  mean_R (map2 (fun t v => (t - v) * (t - v)) target value).

(** The (iteration, total_n_trajectories) pairs handed to the reporter. *)
Definition reports {A X : Type} (evs : list (event A X)) : list (nat * nat) :=
  flat_map (fun e => match e with
                     | EvReport i _ _ n => [(i, n)]
                     | _ => []
                     end) evs.

(** The batches collected, in order. *)
Definition collected {A X : Type} (evs : list (event A X))
    : list (list (trajectory A)) :=
  flat_map (fun e => match e with
                     | EvCollect ts => [ts]
                     | _ => []
                     end) evs.

(** The values [total_n_trajectories] takes: [total += n] for each size. *)
Fixpoint running_totals (total : nat) (sizes : list nat) : list nat :=
  match sizes with
  | [] => []
  | n :: rest => (total + n)%nat :: running_totals (total + n) rest
  end.

(** A runtime whose calls always return, with a supported action space. *)
Definition runtime_responsive {World Summary : Type}
    (RT : Runtime World Summary) : Prop :=
  (forall w, exists a w', parse_args w = (Ok a, w')) /\
  (forall name w, exists sp steps w',
      gym_make name w = (Ok (sp, steps), w') /\ sp <> OtherSpace) /\
  (forall n path w, exists w', A2CDiscrete_init n path w = (Ok tt, w')) /\
  (forall low high path w, exists w',
      A2CContinuous_init low high path w = (Ok tt, w')) /\
  (forall path w, exists w', wrappers_Monitor path w = (Ok tt, w')) /\
  responsive discrete_session /\
  responsive continuous_session.

(** ** Lemmas on sums and on the return computation *)

Lemma sum_R_app (l1 l2 : list R) : sum_R (l1 ++ l2) = sum_R l1 + sum_R l2.
Proof.
  induction l1 as [|x l1 IH]; simpl.
  - lra.
  - rewrite IH. lra.
Qed.

Lemma sum_R_scale (c : R) (l : list R) :
  sum_R (map (fun x => c * x) l) = c * sum_R l.
Proof.
  induction l as [|x l IH]; simpl.
  - lra.
  - rewrite IH. lra.
Qed.

Lemma decayed_suffix_sum_shift (gamma x : R) (r : list R) (t : nat) :
  decayed_suffix_sum gamma (x :: r) (S t) = decayed_suffix_sum gamma r t.
Proof.
  unfold decayed_suffix_sum. simpl length.
  replace (S (length r) - S t)%nat with (length r - t)%nat by lia.
  rewrite <- seq_shift, map_map. reflexivity.
Qed.

Lemma decayed_suffix_sum_head (gamma x : R) (r : list R) :
  decayed_suffix_sum gamma (x :: r) 0 = x + gamma * decayed_suffix_sum gamma r 0.
Proof.
  unfold decayed_suffix_sum. simpl length.
  rewrite !Nat.sub_0_r. simpl seq. simpl map. simpl sum_R.
  rewrite <- seq_shift, map_map, <- sum_R_scale, map_map.
  replace (1 * x) with x by lra.
  f_equal. f_equal. apply map_ext. intros k.
  rewrite !Nat.sub_0_r. simpl. lra.
Qed.

Lemma discount_rewards_cons (gamma x : R) (r : list R) :
  discount_rewards (x :: r) gamma
  = (x + gamma * decayed_suffix_sum gamma r 0) :: discount_rewards r gamma.
Proof.
  unfold discount_rewards. simpl length. simpl seq. simpl map.
  rewrite decayed_suffix_sum_head. f_equal.
  rewrite <- seq_shift, map_map. apply map_ext. intros t.
  apply decayed_suffix_sum_shift.
Qed.

Lemma discount_rewards_hd (gamma : R) (r : list R) :
  hd 0 (discount_rewards r gamma) = decayed_suffix_sum gamma r 0.
Proof.
  destruct r as [|x r].
  - reflexivity.
  - rewrite discount_rewards_cons. simpl. rewrite decayed_suffix_sum_head. reflexivity.
Qed.

Lemma discount_rewards_rec (gamma : R) (r : list R) :
  discount_rewards r gamma = discount_rec r gamma.
Proof.
  induction r as [|x r IH].
  - reflexivity.
  - rewrite discount_rewards_cons. simpl.
    rewrite <- IH, discount_rewards_hd. reflexivity.
Qed.

Lemma discount_rewards_length (gamma : R) (r : list R) :
  length (discount_rewards r gamma) = length r.
Proof. unfold discount_rewards. now rewrite length_map, length_seq. Qed.

Lemma discount_rec_step (g : R) (r : list R) (t : nat) :
  nth t (discount_rec r g) 0 = nth t r 0 + g * nth (S t) (discount_rec r g) 0.
Proof.
  revert t. induction r as [|x r IH]; intros t.
  - destruct t; simpl; lra.
  - destruct t as [|t].
    + simpl. destruct (discount_rec r g); reflexivity.
    + simpl nth at 1 2. rewrite IH. reflexivity.
Qed.

Lemma discount_rewards_nth (g : R) (r : list R) (t : nat) :
  (t < length r)%nat ->
  nth t (discount_rewards r g) 0 = decayed_suffix_sum g r t.
Proof.
  intros Ht. unfold discount_rewards.
  rewrite (nth_indep _ 0 (decayed_suffix_sum g r 0%nat))
    by now rewrite length_map, length_seq.
  rewrite map_nth, seq_nth by exact Ht. reflexivity.
Qed.

(** C1.  The discounted returns of a trajectory have the length of its reward
    sequence; the last return is the last reward; every earlier return is its
    reward plus gamma times the next return; each return is the decayed suffix
    sum of the rewards, nothing being clipped or normalized.  This holds for
    every discount factor, in particular for those in (0,1]. *)
Theorem discount_rewards_recurrence (r : list R) (g : R) :
  length (discount_rewards r g) = length r /\
  (forall t, S t = length r ->
     nth t (discount_rewards r g) 0 = nth t r 0) /\
  (forall t, (S t < length r)%nat ->
     nth t (discount_rewards r g) 0
     = nth t r 0 + g * nth (S t) (discount_rewards r g) 0) /\
  (forall t, (t < length r)%nat ->
     nth t (discount_rewards r g) 0 = decayed_suffix_sum g r t).
Proof.
  split; [apply discount_rewards_length|].
  split; [|split].
  - intros t Ht. rewrite discount_rewards_rec, discount_rec_step.
    rewrite (nth_overflow (discount_rec r g)).
    + lra.
    + rewrite <- discount_rewards_rec, discount_rewards_length. lia.
  - intros t _. rewrite discount_rewards_rec. apply discount_rec_step.
  - intros t Ht. now apply discount_rewards_nth.
Qed.

Lemma discount_rewards_recurrence_witness :
  nth 2 (discount_rewards [1; 2; 4] 0.5) 0 = nth 2 [1; 2; 4] 0 /\
  nth 0 (discount_rewards [1; 2; 4] 0.5) 0
  = nth 0 [1; 2; 4] 0 + 0.5 * nth 1 (discount_rewards [1; 2; 4] 0.5) 0 /\
  nth 1 (discount_rewards [1; 2; 4] 0.5) 0 = decayed_suffix_sum 0.5 [1; 2; 4] 1.
Proof.
  destruct (discount_rewards_recurrence [1; 2; 4] 0.5) as (_ & Hlast & Hstep & Hsum).
  split; [|split].
  - apply Hlast. reflexivity.
  - apply Hstep. simpl. lia.
  - apply Hsum. simpl. lia.
Defined.

Example discount_rewards_sample :
  discount_rewards [1; 2; 4] 0.5 = [3; 4; 4].
Proof.
  rewrite discount_rewards_rec. simpl.
  repeat (f_equal; try lra).
Qed.

Lemma discount_rec_hd_app (g : R) (r1 r2 : list R) :
  hd 0 (discount_rec (r1 ++ r2) g)
  = hd 0 (discount_rec r1 g) + g ^ length r1 * hd 0 (discount_rec r2 g).
Proof.
  induction r1 as [|x r1 IH]; simpl.
  - lra.
  - rewrite IH. lra.
Qed.

Lemma discount_rec_app_zero (g : R) (r1 r2 : list R) :
  hd 0 (discount_rec r2 g) = 0 ->
  discount_rec (r1 ++ r2) g = discount_rec r1 g ++ discount_rec r2 g.
Proof.
  intros Hz. induction r1 as [|x r1 IH]; simpl.
  - reflexivity.
  - rewrite <- IH, discount_rec_hd_app, Hz. f_equal. lra.
Qed.

Lemma discount_rec_app_inv (g x : R) (r1 r2 : list R) :
  g <> 0 ->
  discount_rec ((x :: r1) ++ r2) g = discount_rec (x :: r1) g ++ discount_rec r2 g ->
  hd 0 (discount_rec r2 g) = 0.
Proof.
  intros Hg Heq. simpl in Heq. injection Heq as Hhd _.
  rewrite discount_rec_hd_app in Hhd.
  assert (Hp : g ^ length r1 <> 0) by now apply pow_nonzero.
  assert (Hm : g * (g ^ length r1 * hd 0 (discount_rec r2 g)) = 0) by lra.
  apply Rmult_integral in Hm. destruct Hm as [Hm|Hm]; [contradiction|].
  apply Rmult_integral in Hm. destruct Hm as [Hm|Hm]; [contradiction|exact Hm].
Qed.

Lemma pooled_returns_app {A : Type} (g : R) (l1 l2 : list (trajectory A)) :
  pooled_returns g (l1 ++ l2) = pooled_returns g l1 ++ pooled_returns g l2.
Proof. unfold pooled_returns. now rewrite map_app, concat_app. Qed.

(** ** The guarded logarithm of the discrete actor *)

Lemma nth_map2 {A B C : Type} (f : A -> B -> C) (l1 : list A) (l2 : list B)
    (i : nat) (da : A) (db : B) (dc : C) :
  (i < length l1)%nat -> (i < length l2)%nat ->
  nth i (map2 f l1 l2) dc = f (nth i l1 da) (nth i l2 db).
Proof.
  revert l2 i. induction l1 as [|x l1 IH]; intros [|y l2] i H1 H2; simpl in *; try lia.
  destruct i as [|i]; [reflexivity|]. apply IH; lia.
Qed.

Lemma length_map2 {A B C : Type} (f : A -> B -> C) (l1 : list A) (l2 : list B) :
  length (map2 f l1 l2) = Nat.min (length l1) (length l2).
Proof.
  revert l2. induction l1 as [|x l1 IH]; intros [|y l2]; simpl; auto.
Qed.

(** C5.  A probability equal to zero is replaced by 1e-30, which is strictly
    positive; any other value reaches the logarithm unchanged; so for a
    probability (a non-negative number) the argument of the logarithm is
    strictly positive.  The replacement is a value of the computation, which
    has no error outcome: entry [i] of the eligibility is the logarithm of the
    floored probability times the advantage, and that logarithm is taken
    inside its domain. *)
Theorem floor_probability_guard (g : R) :
  (g = 0 -> floor_probability g = 1e-30) /\
  (g <> 0 -> floor_probability g = g) /\
  0 < 1e-30 /\
  (0 <= g -> 0 < floor_probability g) /\
  (0 <= g -> exp (ln (floor_probability g)) = floor_probability g) /\
  (forall (good critic_rewards critic_feedback : list R) (i : nat),
     (i < length good)%nat -> (i < length critic_rewards)%nat ->
     (i < length critic_feedback)%nat -> nth i good 0 = g ->
     nth i (eligibility good critic_rewards critic_feedback) 0
     = ln (floor_probability g) * (nth i critic_rewards 0 - nth i critic_feedback 0)).
Proof.
  unfold floor_probability.
  split; [|split; [|split; [|split; [|split]]]].
  - intros Hz. destruct (Req_dec_T g 0); [reflexivity|contradiction].
  - intros Hnz. destruct (Req_dec_T g 0); [contradiction|reflexivity].
  - lra.
  - intros Hpos. destruct (Req_dec_T g 0); lra.
  - intros Hpos. apply exp_ln. destruct (Req_dec_T g 0); lra.
  - intros good cr cf i Hg Hr Hf Hi. unfold eligibility.
    rewrite (nth_map2 Rmult _ _ i 0 0 0).
    + rewrite (nth_map2 Rminus _ _ i 0 0 0) by assumption.
      rewrite (nth_indep _ 0 (ln (floor_probability 0))) by now rewrite length_map.
      rewrite (map_nth (fun g0 => ln (floor_probability g0))), Hi. reflexivity.
    + now rewrite length_map.
    + rewrite length_map2. lia.
Qed.

Lemma floor_probability_guard_witness :
  floor_probability 0 = 1e-30 /\
  floor_probability 0.25 = 0.25 /\
  0 < floor_probability 0 /\
  nth 1 (eligibility [0.5; 0] [1; 3] [0; 1]) 0 = ln (floor_probability 0) * (3 - 1).
Proof.
  split; [|split; [|split]].
  - apply (floor_probability_guard 0). reflexivity.
  - apply (floor_probability_guard 0.25). lra.
  - apply (floor_probability_guard 0). lra.
  - destruct (floor_probability_guard 0) as (_ & _ & _ & _ & _ & He).
    apply (He [0.5; 0] [1; 3] [0; 1] 1%nat); simpl; try lia. reflexivity.
Defined.

(** ** The continuous actor *)

Lemma softplus_pos (x : R) : 0 < softplus x.
Proof.
  unfold softplus. rewrite <- ln_1.
  apply ln_increasing; [lra|].
  pose proof (exp_pos x). lra.
Qed.

(** C6.  For every logit, softplus of the logit plus 1e-5 is strictly
    positive (it even exceeds the floor 1e-5); so is the standard deviation
    of the actor for every choice of weights and every state. *)
Theorem floored_sigma_positive (logit : R) :
  0 < floored_sigma logit /\ 1e-5 < floored_sigma logit /\
  (forall (th : actor_params) (input_state : list R),
     0 < actor_sigma th input_state).
Proof.
  assert (H : forall x, 1e-5 < floored_sigma x).
  { intros x. unfold floored_sigma. pose proof (softplus_pos x). lra. }
  split; [|split].
  - specialize (H logit). lra.
  - apply H.
  - intros th s. unfold actor_sigma.
    specialize (H (fully_connected (sigma_w th) (sigma_b th) s)). lra.
Qed.

Lemma clip_by_value_bounds (t lo hi : R) :
  lo <= hi -> lo <= clip_by_value t lo hi <= hi.
Proof.
  intros Hle. unfold clip_by_value. split.
  - apply Rmax_r.
  - apply Rmax_lub; [apply Rmin_r | exact Hle].
Qed.

(** C7.  Whatever the mean, the standard deviation and the normal draw, the
    clipped sample lies between the two bounds, provided the lower bound does
    not exceed the upper one; hence the one-element action returned by
    [choose_action] lies within the environment's declared bounds [low[0]]
    and [high[0]] for every state and every weights of the actor. *)
Theorem choose_action_within_bounds (th : actor_params) (low high : list R)
    (ag : continuous_agent) (input_state : list R) (z : R) :
  build_clip th low high = Some ag ->
  hd 0 low <= hd 0 high ->
  length (choose_action ag input_state z) = 1%nat /\
  Forall (fun a => hd 0 low <= a <= hd 0 high) (choose_action ag input_state z) /\
  (forall mu sigma : R,
     hd 0 low <= clip_by_value (normal_sample mu sigma z) (hd 0 low) (hd 0 high)
     <= hd 0 high).
Proof.
  intros Hb Hle.
  split; [reflexivity|]. split.
  - destruct low as [|l0 low], high as [|h0 high]; try discriminate.
    injection Hb as <-. simpl in *.
    constructor; [|constructor].
    now apply clip_by_value_bounds.
  - intros mu sigma. now apply clip_by_value_bounds.
Qed.

Lemma choose_action_within_bounds_witness :
  Forall (fun a => hd 0 [-2] <= a <= hd 0 [2])
    (choose_action
       {| theta := {| mu_w := [1]; mu_b := 0; sigma_w := [1]; sigma_b := 0 |};
          clip_low := -2; clip_high := 2 |}
       [100] 1000).
Proof.
  apply (choose_action_within_bounds
           {| mu_w := [1]; mu_b := 0; sigma_w := [1]; sigma_b := 0 |}
           [-2] [2]).
  - reflexivity.
  - simpl. lra.
Defined.

(** ** The action encoding of the discrete learner *)

Lemma one_hot_row_nth (a : Z) (s n j : nat) :
  (j < n)%nat ->
  nth j (map (fun p => if Z.eqb p a then 1 else 0) (map Z.of_nat (seq s n))) 0
  = if Z.eqb (Z.of_nat (s + j)) a then 1 else 0.
Proof.
  intros Hj. rewrite map_map.
  rewrite (nth_indep _ 0 (if Z.eqb (Z.of_nat 0) a then 1 else 0))
    by now rewrite length_map, length_seq.
  rewrite (map_nth (fun k => if Z.eqb (Z.of_nat k) a then 1 else 0)).
  now rewrite seq_nth.
Qed.

Lemma count_ones_cons (x : R) (l : list R) :
  count_ones (x :: l)
  = ((if Req_dec_T x 1 then 1 else 0) + count_ones l)%nat.
Proof.
  unfold count_ones. simpl. destruct (Req_dec_T x 1); reflexivity.
Qed.

Lemma count_ones_row (a : Z) (s n : nat) :
  (0 <= a)%Z ->
  count_ones (map (fun p => if Z.eqb p a then 1 else 0) (map Z.of_nat (seq s n)))
  = if (s <=? Z.to_nat a)%nat && (Z.to_nat a <? s + n)%nat then 1%nat else 0%nat.
Proof.
  intros Ha. revert s. induction n as [|n IH]; intros s.
  - simpl.
    destruct (Nat.leb_spec s (Z.to_nat a)), (Nat.ltb_spec (Z.to_nat a) (s + 0));
      simpl; try reflexivity; lia.
  - simpl seq. simpl map. rewrite count_ones_cons, IH.
    destruct (Z.eqb_spec (Z.of_nat s) a) as [He|He].
    + destruct (Req_dec_T 1 1) as [_|Hn]; [|lra].
      destruct (Nat.leb_spec (S s) (Z.to_nat a)); [lia|].
      destruct (Nat.leb_spec s (Z.to_nat a)); [|lia].
      destruct (Nat.ltb_spec (Z.to_nat a) (s + S n)); [|lia].
      reflexivity.
    + destruct (Req_dec_T 0 1) as [Hn|_]; [lra|].
      destruct (Nat.leb_spec (S s) (Z.to_nat a)), (Nat.leb_spec s (Z.to_nat a)),
               (Nat.ltb_spec (Z.to_nat a) (S s + n)),
               (Nat.ltb_spec (Z.to_nat a) (s + S n));
        simpl; try reflexivity; lia.
Qed.

Lemma dot_one_hot_row (a : Z) (p : list R) (s : nat) :
  (0 <= a)%Z ->
  sum_R (map2 Rmult p
           (map (fun q => if Z.eqb q a then 1 else 0)
                (map Z.of_nat (seq s (length p)))))
  = if (s <=? Z.to_nat a)%nat && (Z.to_nat a <? s + length p)%nat
    then nth (Z.to_nat a - s) p 0 else 0.
Proof.
  intros Ha. revert s. induction p as [|x p IH]; intros s.
  - simpl. destruct (_ && _); [destruct (Z.to_nat a - s)%nat|]; reflexivity.
  - simpl length. simpl seq. simpl map. simpl map2. simpl sum_R. rewrite IH.
    destruct (Z.eqb_spec (Z.of_nat s) a) as [He|He].
    + destruct (Nat.leb_spec (S s) (Z.to_nat a)); [lia|].
      destruct (Nat.leb_spec s (Z.to_nat a)); [|lia].
      destruct (Nat.ltb_spec (Z.to_nat a) (s + S (length p))); [|lia].
      simpl. replace (Z.to_nat a - s)%nat with 0%nat by lia. simpl. lra.
    + destruct (Nat.leb_spec (S s) (Z.to_nat a)), (Nat.leb_spec s (Z.to_nat a)),
               (Nat.ltb_spec (Z.to_nat a) (S s + length p)),
               (Nat.ltb_spec (Z.to_nat a) (s + S (length p)));
        simpl; try lia; try lra.
      replace (Z.to_nat a - s)%nat with (S (Z.to_nat a - S s)) by lia.
      simpl. lra.
Qed.

Lemma good_probabilities_one_hot (nA : nat) (all_action : list Z)
    (prob_na : list (list R)) :
  Forall (fun a => (0 <= a < Z.of_nat nA)%Z) all_action ->
  Forall (fun p => length p = nA) prob_na ->
  good_probabilities prob_na (one_hot (arange nA) all_action)
  = map2 (fun p a => nth (Z.to_nat a) p 0) prob_na all_action.
Proof.
  intros Ha Hp. revert all_action Ha.
  induction Hp as [|p prob_na Hlen Hp IH]; intros all_action Ha.
  - reflexivity.
  - destruct Ha as [|a all_action Hrange Ha]; [reflexivity|].
    unfold good_probabilities, one_hot in *. simpl. f_equal.
    + unfold arange. rewrite <- Hlen, dot_one_hot_row by lia.
      destruct (Nat.ltb_spec (Z.to_nat a) (0 + length p)); [|lia].
      simpl. now rewrite Nat.sub_0_r.
    + now apply IH.
Qed.

(** C10.  When every collected action is an integer in [0, nA), the encoding
    of line 70 has one row per action; row [i] has [nA] entries, exactly one
    of them equal to 1, at the index of the action taken, the others equal to
    0; and the row-wise product-and-sum of line 115 against a matrix of
    probabilities with [nA] columns returns, for each row, the probability at
    the index of the action taken. *)
Theorem one_hot_selects_taken_action (nA : nat) (all_action : list Z)
    (prob_na : list (list R)) :
  Forall (fun a => (0 <= a < Z.of_nat nA)%Z) all_action ->
  Forall (fun p => length p = nA) prob_na ->
  length (one_hot (arange nA) all_action) = length all_action /\
  (forall i a, nth_error all_action i = Some a ->
     exists row,
       nth_error (one_hot (arange nA) all_action) i = Some row /\
       length row = nA /\
       count_ones row = 1%nat /\
       forall j, (j < nA)%nat ->
         nth j row 0 = if (j =? Z.to_nat a)%nat then 1 else 0) /\
  good_probabilities prob_na (one_hot (arange nA) all_action)
  = map2 (fun p a => nth (Z.to_nat a) p 0) prob_na all_action.
Proof.
  intros Ha Hp. split; [|split].
  - unfold one_hot. apply length_map.
  - intros i a Hi.
    assert (Hrange : (0 <= a < Z.of_nat nA)%Z).
    { rewrite Forall_forall in Ha. apply Ha. eapply nth_error_In. exact Hi. }
    eexists. split; [|split; [|split]].
    + unfold one_hot. rewrite nth_error_map, Hi. reflexivity.
    + unfold arange. now rewrite !length_map, length_seq.
    + unfold arange. rewrite count_ones_row by lia.
      destruct (Nat.ltb_spec (Z.to_nat a) (0 + nA)); [reflexivity|lia].
    + intros j Hj. unfold arange. rewrite one_hot_row_nth by exact Hj.
      simpl. destruct (Z.eqb_spec (Z.of_nat j) a), (Nat.eqb_spec j (Z.to_nat a));
        try reflexivity; lia.
  - now apply good_probabilities_one_hot.
Qed.

Lemma one_hot_selects_taken_action_witness :
  good_probabilities [[0.2; 0.3; 0.5]; [0.6; 0.1; 0.3]]
                     (one_hot (arange 3) [2%Z; 0%Z])
  = map2 (fun p a => nth (Z.to_nat a) p 0)
         [[0.2; 0.3; 0.5]; [0.6; 0.1; 0.3]] [2%Z; 0%Z].
Proof.
  apply (one_hot_selects_taken_action 3 [2%Z; 0%Z]
           [[0.2; 0.3; 0.5]; [0.6; 0.1; 0.3]]).
  - repeat constructor; simpl; lia.
  - repeat constructor.
Defined.

Example one_hot_sample :
  one_hot (arange 3) [2%Z; 0%Z] = [[0; 0; 1]; [1; 0; 0]].
Proof. reflexivity. Qed.

(** ** Stepping through monadic code *)

Lemma bind_ok {S T U : Type} (c : M S T) (k : T -> M S U) (s s' : S) (v : T) :
  c s = (Ok v, s') -> bind c k s = k v s'.
Proof. intros H. unfold bind. now rewrite H. Qed.

Lemma bind_raise {S T U : Type} (c : M S T) (k : T -> M S U) (s s' : S) (e : exn) :
  c s = (Raise e, s') -> bind c k s = (Raise e, s').
Proof. intros H. unfold bind. now rewrite H. Qed.

Lemma perform_ok {World A X T : Type} (op : M World T) (ev : T -> event A X)
    (m : machine World A X) (v : T) (w' : World) :
  op (world m) = (Ok v, w') ->
  perform op ev m = (Ok v, {| world := w'; trace := trace m ++ [ev v] |}).
Proof. intros H. unfold perform. now rewrite H. Qed.

Lemma perform_raise {World A X T : Type} (op : M World T) (ev : T -> event A X)
    (m : machine World A X) (e : exn) (w' : World) :
  op (world m) = (Raise e, w') ->
  perform op ev m = (Raise e, {| world := w'; trace := trace m |}).
Proof. intros H. unfold perform. now rewrite H. Qed.

Lemma np_concatenate_map_ok {S T U : Type} (f : T -> list U) (l : list T) (s : S) :
  l <> [] -> np_concatenate (map f l) s = (Ok (concat (map f l)), s).
Proof. destruct l; [contradiction|reflexivity]. Qed.

Lemma np_concatenate_nil {S T U : Type} (f : T -> list U) (s : S) :
  np_concatenate (map f []) s = (Raise ValueError, s).
Proof. reflexivity. Qed.

Lemma In_firstn {T : Type} (x : T) (k : nat) (l : list T) :
  In x (firstn k l) -> In x l.
Proof.
  revert l. induction k as [|k IH]; intros [|y l] H; simpl in *; try contradiction.
  destruct H as [H|H]; [now left|right; now apply IH].
Qed.

Section LearnFacts.
Context {World A X Summary : Type} {Sess : Session World A X Summary}.
Variables (encode : list A -> X) (cfg : config).

Lemma learn_iteration_spec (iteration total : nat) (m : machine World A X) :
  exists evs,
    trace (snd (learn_iteration encode cfg iteration total m)) = trace m ++ evs /\
    ((exists e, fst (learn_iteration encode cfg iteration total m) = Raise e /\
                forall f, ~ In (EvTrain f) evs)
     \/
     (exists ts qw w1 sm w2 k,
         ts <> [] /\
         get_trajectories (world m) = (Ok ts, w1) /\
         critic_value (concat (map state ts)) w1 = Ok qw /\
         run_train (batch_feed encode cfg ts qw) w1 = (Ok sm, w2) /\
         evs = update_events encode cfg ts qw
               ++ firstn k (closing_events iteration (total + length ts) ts) /\
         forall v, fst (learn_iteration encode cfg iteration total m) = Ok v ->
                   v = (total + length ts)%nat /\ k = 3%nat)).
Proof.
  unfold learn_iteration.
  destruct (get_trajectories (world m)) as [[ts|e] w1] eqn:Hget.
  2:{ erewrite bind_raise by (apply perform_raise; exact Hget).
      exists []. simpl. rewrite app_nil_r. split; [reflexivity|].
      left. exists e. split; [reflexivity|]. intros f []. }
  erewrite bind_ok by (apply perform_ok; exact Hget).
  destruct ts as [|t0 ts0] eqn:Hts.
  { erewrite bind_raise by apply np_concatenate_nil.
    exists [EvCollect []]. split; [reflexivity|].
    left. exists ValueError. split; [reflexivity|].
    intros f [H|[]]; discriminate. }
  rewrite <- Hts in *.
  assert (Hne : ts <> []) by (rewrite Hts; discriminate).
  clear Hts t0 ts0.
  erewrite bind_ok by (apply np_concatenate_map_ok; exact Hne).
  erewrite bind_ok by (apply np_concatenate_map_ok; exact Hne).
  erewrite bind_ok by (apply (np_concatenate_map_ok
     (fun t => discount_rewards (reward t) (gamma cfg))); exact Hne).
  unfold get_critic_value.
  destruct (critic_value (concat (map state ts)) w1) as [qw|e] eqn:Hq.
  2:{ erewrite bind_raise by (apply perform_raise; simpl; rewrite Hq; reflexivity).
      exists [EvCollect ts]. split; [reflexivity|].
      left. exists e. split; [reflexivity|].
      intros f [H|[]]; discriminate. }
  erewrite bind_ok by (apply perform_ok; simpl; rewrite Hq; reflexivity).
  fold (pooled_returns (gamma cfg) ts). fold (batch_feed encode cfg ts qw).
  destruct (run_train (batch_feed encode cfg ts qw) w1) as [[sm|e] w2] eqn:Ht.
  2:{ erewrite bind_raise by (apply perform_raise; simpl; exact Ht).
      exists [EvCollect ts; EvCriticValue (concat (map state ts)) qw].
      split; [simpl; now rewrite <- app_assoc|].
      left. exists e. split; [reflexivity|].
      intros f [H|[H|[]]]; discriminate. }
  erewrite bind_ok by (apply perform_ok; simpl; exact Ht).
  assert (Hshape : forall k (r : result nat) (m' : machine World A X),
    trace m' = trace m ++ update_events encode cfg ts qw
               ++ firstn k (closing_events iteration (total + length ts) ts) ->
    (forall v, r = Ok v -> v = (total + length ts)%nat /\ k = 3%nat) ->
    exists evs,
      trace (snd (r, m')) = trace m ++ evs /\
      ((exists e, fst (r, m') = Raise e /\ forall f, ~ In (EvTrain f) evs) \/
       (exists ts0 qw0 w0 sm0 w3 k0,
          ts0 <> [] /\ (Ok ts, w1) = (Ok ts0, w0) /\
          critic_value (concat (map state ts0)) w0 = Ok qw0 /\
          run_train (batch_feed encode cfg ts0 qw0) w0 = (Ok sm0, w3) /\
          evs = update_events encode cfg ts0 qw0
                ++ firstn k0 (closing_events iteration (total + length ts0) ts0) /\
          forall v, fst (r, m') = Ok v ->
                    v = (total + length ts0)%nat /\ k0 = 3%nat))).
  { intros k r m' Htr Hok. eexists. split; [exact Htr|].
    right. exists ts, qw, w1, sm, w2, k.
    split; [exact Hne|]. split; [reflexivity|]. split; [exact Hq|].
    split; [exact Ht|]. split; [reflexivity|]. exact Hok. }
  destruct (add_summary sm iteration w2) as [[[]|e] w3] eqn:Ha.
  2:{ erewrite bind_raise by (apply perform_raise; simpl; exact Ha).
      apply (Hshape 0%nat); [|discriminate].
      simpl. now rewrite <- !app_assoc. }
  erewrite bind_ok by (apply perform_ok; simpl; exact Ha).
  destruct (flush w3) as [[[]|e] w4] eqn:Hf.
  2:{ erewrite bind_raise by (apply perform_raise; simpl; exact Hf).
      apply (Hshape 1%nat); [|discriminate].
      simpl. now rewrite <- !app_assoc. }
  erewrite bind_ok by (apply perform_ok; simpl; exact Hf).
  destruct (print_iteration_stats iteration
              (map (fun t => sum_R (reward t)) ts)
              (map (fun t => length (reward t)) ts)
              (total + length ts) w4) as [[[]|e] w5] eqn:Hp.
  2:{ erewrite bind_raise by (apply perform_raise; simpl; exact Hp).
      apply (Hshape 2%nat); [|discriminate].
      simpl. now rewrite <- !app_assoc. }
  erewrite bind_ok by (apply perform_ok; simpl; exact Hp).
  unfold ret. apply (Hshape 3%nat).
  - simpl. now rewrite <- !app_assoc.
  - intros v Hv. injection Hv as <-. split; reflexivity.
Qed.

Lemma count_train_app (l1 l2 : list (event A X)) :
  count_train (l1 ++ l2) = (count_train l1 + count_train l2)%nat.
Proof. unfold count_train. now rewrite filter_app, length_app. Qed.

Lemma count_train_none (evs : list (event A X)) :
  (forall f, ~ In (EvTrain f) evs) -> count_train evs = 0%nat.
Proof.
  induction evs as [|e evs IH]; intros Hno; [reflexivity|].
  unfold count_train in *. simpl.
  destruct e; try (apply IH; intros f Hf; apply (Hno f); now right).
  exfalso. apply (Hno feed). now left.
Qed.

Lemma closing_events_no_train (iteration total k : nat) (ts : list (trajectory A))
    (f : feed_dict X) :
  ~ In (EvTrain f) (firstn k (closing_events iteration total ts)).
Proof.
  intros Hin. apply In_firstn in Hin.
  destruct Hin as [H|[H|[H|[]]]]; discriminate.
Qed.

Lemma count_train_iteration (iteration total k : nat) (ts : list (trajectory A))
    (qw : list R) :
  count_train (update_events encode cfg ts qw
               ++ firstn k (closing_events iteration total ts)) = 1%nat.
Proof.
  rewrite count_train_app, (count_train_none (firstn k _)).
  - reflexivity.
  - intros f. apply closing_events_no_train.
Qed.

Lemma count_train_run_events (batches : list (list (trajectory A) * list R))
    (s total : nat) :
  count_train (run_events encode cfg s total batches) = length batches.
Proof.
  revert s total. induction batches as [|[ts qw] rest IH]; intros s total.
  - reflexivity.
  - cbn [run_events]. rewrite count_train_app, IH.
    unfold iteration_events.
    rewrite <- (firstn_all (closing_events s (total + length ts) ts)).
    rewrite count_train_iteration. reflexivity.
Qed.

Lemma learn_loop_spec (n s total : nat) (m : machine World A X) :
  exists evs,
    trace (snd (for_each (seq s n) (learn_iteration encode cfg) total m))
    = trace m ++ evs /\
    (count_train evs <= n)%nat /\
    (forall v,
       fst (for_each (seq s n) (learn_iteration encode cfg) total m) = Ok v ->
       exists batches,
         length batches = n /\ evs = run_events encode cfg s total batches).
Proof.
  revert s total m. induction n as [|n IH]; intros s total m.
  - exists []. simpl. rewrite app_nil_r. split; [reflexivity|]. split; [auto|].
    intros v _. exists []. split; reflexivity.
  - simpl seq. simpl for_each.
    destruct (learn_iteration_spec s total m) as (evs1 & Htr1 & Hcase).
    destruct (learn_iteration encode cfg s total m) as [[v1|e] m1] eqn:Hit.
    + erewrite bind_ok by exact Hit.
      destruct Hcase as [(e & He & _)|(ts & qw & w1 & sm & w2 & k & _ & _ & _ & _ & Hevs & Hok)];
        [discriminate|].
      destruct (Hok v1 eq_refl) as [-> ->].
      destruct (IH (S s) (total + length ts)%nat m1) as (evs2 & Htr2 & Hcnt2 & Hok2).
      exists (evs1 ++ evs2). simpl in Htr1.
      split; [rewrite Htr2, Htr1; now rewrite app_assoc|].
      split.
      * rewrite count_train_app, Hevs, count_train_iteration. lia.
      * intros v Hv. destruct (Hok2 v Hv) as (batches & Hlen & Hrun).
        exists ((ts, qw) :: batches). split; [simpl; now rewrite Hlen|].
        cbn [run_events]. rewrite Hevs, Hrun. reflexivity.
    + erewrite bind_raise by exact Hit.
      exists evs1. cbn [fst snd] in *. split; [exact Htr1|]. split; [|discriminate].
      destruct Hcase as [(e' & _ & Hno)|(ts & qw & w1 & sm & w2 & k & _ & _ & _ & _ & Hevs & _)].
      * rewrite count_train_none by exact Hno. lia.
      * rewrite Hevs, count_train_iteration. lia.
Qed.

Lemma learn_spec (m : machine World A X) :
  exists evs,
    trace (snd (learn encode cfg m)) = trace m ++ evs /\
    (count_train evs <= n_iter cfg)%nat /\
    (fst (learn encode cfg m) = Ok tt ->
     exists batches,
       length batches = n_iter cfg /\
       evs = run_events encode cfg 0 0 batches /\
       count_train evs = n_iter cfg).
Proof.
  unfold learn.
  destruct (learn_loop_spec (n_iter cfg) 0 0 m) as (evs & Htr & Hcnt & Hok).
  exists evs.
  destruct (for_each (seq 0 (n_iter cfg)) (learn_iteration encode cfg) 0%nat m)
    as [[v|e] m1] eqn:Hloop.
  - erewrite bind_ok by exact Hloop. unfold ret. cbn [fst snd] in *.
    split; [exact Htr|]. split; [exact Hcnt|].
    intros _. destruct (Hok v eq_refl) as (batches & Hlen & Hrun).
    exists batches. split; [exact Hlen|]. split; [exact Hrun|].
    now rewrite Hrun, count_train_run_events.
  - erewrite bind_raise by exact Hloop. cbn [fst snd] in *.
    split; [exact Htr|]. split; [exact Hcnt|]. discriminate.
Qed.

Lemma learn_iteration_returns (iteration total : nat) (m : machine World A X) :
  responsive Sess ->
  exists v m', learn_iteration encode cfg iteration total m = (Ok v, m').
Proof.
  intros (Hget & Hq & Ht & Ha & Hf & Hp).
  unfold learn_iteration.
  destruct (Hget (world m)) as (ts & w1 & Hg & Hne).
  erewrite bind_ok by (apply perform_ok; exact Hg).
  erewrite bind_ok by (apply np_concatenate_map_ok; exact Hne).
  erewrite bind_ok by (apply np_concatenate_map_ok; exact Hne).
  erewrite bind_ok by (apply (np_concatenate_map_ok
     (fun t => discount_rewards (reward t) (gamma cfg))); exact Hne).
  unfold get_critic_value.
  destruct (Hq (concat (map state ts)) w1) as (qw & Hqw).
  erewrite bind_ok by (apply perform_ok; simpl; rewrite Hqw; reflexivity).
  match goal with
  | |- context [run_train ?f] => destruct (Ht f w1) as (sm & w2 & Hrun)
  end.
  erewrite bind_ok by (apply perform_ok; simpl; exact Hrun).
  destruct (Ha sm iteration w2) as (w3 & Hadd).
  erewrite bind_ok by (apply perform_ok; simpl; exact Hadd).
  destruct (Hf w3) as (w4 & Hfl).
  erewrite bind_ok by (apply perform_ok; simpl; exact Hfl).
  match goal with
  | |- context [print_iteration_stats ?i ?er ?el ?n] =>
      destruct (Hp i er el n w4) as (w5 & Hpr)
  end.
  erewrite bind_ok by (apply perform_ok; simpl; exact Hpr).
  unfold ret. eexists. eexists. reflexivity.
Qed.

Lemma learn_returns (m : machine World A X) :
  responsive Sess -> exists m', learn encode cfg m = (Ok tt, m').
Proof.
  intros Hresp. unfold learn.
  assert (Hloop : forall n s total m0,
    exists v m', for_each (seq s n) (learn_iteration encode cfg) total m0 = (Ok v, m')).
  { induction n as [|n IH]; intros s total m0.
    - exists total, m0. reflexivity.
    - simpl seq. simpl for_each.
      destruct (learn_iteration_returns s total m0 Hresp) as (v1 & m1 & Hit).
      erewrite bind_ok by exact Hit. apply IH. }
  destruct (Hloop (n_iter cfg) 0%nat 0%nat m) as (v & m' & Hrun).
  erewrite bind_ok by exact Hrun. exists m'. reflexivity.
Qed.
End LearnFacts.

Lemma learn_iteration_update {World A X Summary : Type}
    {Sess : Session World A X Summary} (encode : list A -> X) (cfg : config)
    (iteration total : nat) (m : machine World A X)
    (evs before after : list (event A X)) (f : feed_dict X) :
  trace (snd (learn_iteration encode cfg iteration total m)) = trace m ++ evs ->
  evs = before ++ EvTrain f :: after ->
  exists ts qw w1 sm w2,
    get_trajectories (world m) = (Ok ts, w1) /\
    critic_value (concat (map state ts)) w1 = Ok qw /\
    run_train f w1 = (Ok sm, w2) /\
    f = batch_feed encode cfg ts qw /\
    before = [EvCollect ts; EvCriticValue (concat (map state ts)) qw] /\
    (forall ts', In (EvCollect ts') evs -> ts' = ts).
Proof.
  intros Htr Hsplit.
  destruct (learn_iteration_spec encode cfg iteration total m) as (evs0 & Htr0 & Hcase).
  rewrite Htr in Htr0. apply app_inv_head in Htr0. subst evs0.
  destruct Hcase as [(e & _ & Hno)|(ts & qw & w1 & sm & w2 & k & _ & Hg & Hq & Ht & Hevs & _)].
  - exfalso. apply (Hno f). rewrite Hsplit. apply in_elt.
  - exists ts, qw, w1, sm, w2.
    assert (Hrest : forall f', ~ In (EvTrain f')
              (firstn k (closing_events (A := A) (X := X) iteration (total + length ts) ts)))
      by (intros f'; apply closing_events_no_train).
    rewrite Hsplit in Hevs. unfold update_events in Hevs.
    destruct before as [|b0 [|b1 [|b2 before]]]; simpl in Hevs.
    + discriminate.
    + discriminate.
    + injection Hevs as -> -> -> Hafter.
      repeat (split; [assumption || reflexivity|]).
      intros ts' Hin. rewrite Hsplit in Hin.
      destruct Hin as [Hin|[Hin|[Hin|Hin]]]; try discriminate.
      * now injection Hin.
      * rewrite Hafter in Hin. apply In_firstn in Hin.
        destruct Hin as [H|[H|[H|[]]]]; discriminate.
    + injection Hevs as _ _ _ Hafter.
      exfalso. apply (Hrest f). rewrite <- Hafter. apply in_elt.
Qed.

Lemma batch_feed_rows {A X : Type} (encode : list A -> X) (cfg : config)
    (ts : list (trajectory A)) (qw : list R) :
  Forall well_formed ts ->
  length (critic_state_in (batch_feed encode cfg ts qw)) = batch_size ts /\
  length (actor_input (batch_feed encode cfg ts qw)) = batch_size ts /\
  length (concat (map action ts)) = batch_size ts /\
  length (critic_target (batch_feed encode cfg ts qw)) = batch_size ts /\
  length (critic_rewards (batch_feed encode cfg ts qw)) = batch_size ts.
Proof.
  intros Hwf. unfold batch_feed, make_feed, pooled_returns, batch_size. simpl.
  rewrite !length_concat, !map_map.
  assert (Hs : map (fun t : trajectory A => length (state t)) ts
               = map (fun t => length (reward t)) ts).
  { apply map_ext_in. intros t Hin. rewrite Forall_forall in Hwf.
    now destruct (Hwf t Hin). }
  assert (Ha : map (fun t : trajectory A => length (action t)) ts
               = map (fun t => length (reward t)) ts).
  { apply map_ext_in. intros t Hin. rewrite Forall_forall in Hwf.
    now destruct (Hwf t Hin). }
  assert (Hr : map (fun t : trajectory A =>
                      length (discount_rewards (reward t) (gamma cfg))) ts
               = map (fun t => length (reward t)) ts).
  { apply map_ext. intros t. apply discount_rewards_length. }
  rewrite Hs, Ha, Hr. repeat split.
Qed.

(** C2.  The pooled returns are the per-trajectory discounted returns laid end
    to end: the segment of a trajectory is computed from that trajectory's
    rewards alone; and these pooled returns are what the update of an
    iteration is fed as critic target and as critic rewards.  For two
    trajectories, with a non-zero discount factor and a non-empty first
    trajectory, discounting the concatenated rewards as one trajectory gives
    the pooled returns exactly when the discounted return of the second
    trajectory from its first step is zero; in every other case the two
    differ. *)
Theorem returns_per_trajectory :
  (forall (A : Type) (g : R) (before after : list (trajectory A)) (t : trajectory A),
     pooled_returns g (before ++ t :: after)
     = pooled_returns g before ++ discount_rewards (reward t) g
       ++ pooled_returns g after) /\
  (forall (World A X Summary : Type) (Sess : Session World A X Summary)
          (encode : list A -> X) (cfg : config) (iteration total : nat)
          (m : machine World A X) evs ts f,
     trace (snd (learn_iteration encode cfg iteration total m)) = trace m ++ evs ->
     In (EvCollect ts) evs -> In (EvTrain f) evs ->
     critic_target f = pooled_returns (gamma cfg) ts /\
     critic_rewards f = pooled_returns (gamma cfg) ts) /\
  (forall (A : Type) (g : R) (t1 t2 : trajectory A),
     g <> 0 -> reward t1 <> [] ->
     (discount_rewards (reward t1 ++ reward t2) g = pooled_returns g [t1; t2]
      <-> decayed_suffix_sum g (reward t2) 0 = 0)).
Proof.
  split; [|split].
  - intros A g before after t.
    rewrite pooled_returns_app. reflexivity.
  - intros World A X Summary Sess encode cfg iteration total m evs ts f Htr Hc Ht.
    destruct (in_split _ _ Ht) as (before & after & Hsplit).
    destruct (learn_iteration_update _ _ _ _ _ _ _ _ _ Htr Hsplit)
      as (ts0 & qw & _ & _ & _ & _ & _ & _ & Hf & _ & Honly).
    rewrite (Honly ts Hc). subst f. split; reflexivity.
  - intros A g t1 t2 Hg Hne.
    unfold pooled_returns. simpl. rewrite app_nil_r.
    rewrite <- discount_rewards_hd, !discount_rewards_rec.
    split.
    + destruct (reward t1) as [|x r1]; [contradiction|].
      now apply discount_rec_app_inv.
    + apply discount_rec_app_zero.
Qed.

Lemma returns_per_trajectory_witness :
  discount_rewards ([1] ++ [2]) 0.5
  <> pooled_returns 0.5 [ {| state := [[0]]; action := [0%Z]; reward := [1] |};
                          {| state := [[0]]; action := [1%Z]; reward := [2] |} ] /\
  critic_target
    (batch_feed (one_hot (arange 2)) (sample_config 1)
                [sample_discrete_trajectory] [INR 1; INR 1])
  = pooled_returns 0.5 [sample_discrete_trajectory].
Proof.
  split.
  - intros H.
    apply (proj2 (proj2 returns_per_trajectory) Z 0.5
                 {| state := [[0]]; action := [0%Z]; reward := [1] |}
                 {| state := [[0]]; action := [1%Z]; reward := [2] |}) in H.
    + unfold decayed_suffix_sum in H. simpl in H. lra.
    + lra.
    + discriminate.
  - apply (proj1 (proj2 returns_per_trajectory) nat Z (list (list R)) unit
             (counting_session sample_discrete_trajectory None)
             (one_hot (arange 2)) (sample_config 1) 0%nat 0%nat
             {| world := 0%nat; trace := [] |}
             (iteration_events (one_hot (arange 2)) (sample_config 1) 0 1
                               [sample_discrete_trajectory] [INR 1; INR 1])
             [sample_discrete_trajectory]).
    + reflexivity.
    + left. reflexivity.
    + right. right. left. reflexivity.
Defined.

(** C3.  In any iteration of either learner, the feed of the update has as
    many states, encoded actions and returns as the trajectories collected in
    that iteration have steps, the three arrays of each trajectory having one
    entry per step. *)
Theorem batch_rows_equal_trajectory_steps :
  (forall (World Summary : Type) (Sess : Session World Z (list (list R)) Summary)
          (nA : nat) (cfg : config) (iteration total : nat)
          (m : machine World Z (list (list R))) evs ts f,
      trace (snd (learn_iteration (one_hot (arange nA)) cfg iteration total m))
      = trace m ++ evs ->
      In (EvCollect ts) evs -> In (EvTrain f) evs ->
      Forall well_formed ts ->
      length (critic_state_in f) = batch_size ts /\
      length (actor_input f) = batch_size ts /\
      length (actions_taken f) = batch_size ts /\
      length (critic_target f) = batch_size ts /\
      length (critic_rewards f) = batch_size ts) /\
  (forall (World Summary : Type) (Sess : Session World R (list R) Summary)
          (cfg : config) (iteration total : nat)
          (m : machine World R (list R)) evs ts f,
      trace (snd (learn_iteration (fun all_action => all_action) cfg iteration total m))
      = trace m ++ evs ->
      In (EvCollect ts) evs -> In (EvTrain f) evs ->
      Forall well_formed ts ->
      length (critic_state_in f) = batch_size ts /\
      length (actor_input f) = batch_size ts /\
      length (actions_taken f) = batch_size ts /\
      length (critic_target f) = batch_size ts /\
      length (critic_rewards f) = batch_size ts).
Proof.
  split.
  - intros World Summary Sess nA cfg iteration total m evs ts f Htr Hc Ht Hwf.
    destruct (in_split _ _ Ht) as (before & after & Hsplit).
    destruct (learn_iteration_update _ _ _ _ _ _ _ _ _ Htr Hsplit)
      as (ts0 & qw & _ & _ & _ & _ & _ & _ & Hf & _ & Honly).
    rewrite (Honly ts Hc) in *. subst f.
    destruct (batch_feed_rows (one_hot (arange nA)) cfg ts0 qw Hwf)
      as (H1 & H2 & H3 & H4 & H5).
    repeat split; try assumption.
    unfold batch_feed, make_feed, one_hot. simpl. now rewrite length_map.
  - intros World Summary Sess cfg iteration total m evs ts f Htr Hc Ht Hwf.
    destruct (in_split _ _ Ht) as (before & after & Hsplit).
    destruct (learn_iteration_update _ _ _ _ _ _ _ _ _ Htr Hsplit)
      as (ts0 & qw & _ & _ & _ & _ & _ & _ & Hf & _ & Honly).
    rewrite (Honly ts Hc) in *. subst f.
    destruct (batch_feed_rows (fun a : list R => a) cfg ts0 qw Hwf)
      as (H1 & H2 & H3 & H4 & H5).
    repeat split; assumption.
Qed.

Lemma batch_rows_equal_trajectory_steps_witness :
  length (actions_taken
            (batch_feed (one_hot (arange 2)) (sample_config 1)
                        [sample_discrete_trajectory] [INR 1; INR 1]))
  = batch_size [sample_discrete_trajectory] /\
  length (critic_target
            (batch_feed (fun a : list R => a) (sample_config 1)
                        [sample_continuous_trajectory] [INR 1; INR 1; INR 1]))
  = batch_size [sample_continuous_trajectory].
Proof.
  split.
  - apply (proj1 batch_rows_equal_trajectory_steps nat unit
             (counting_session sample_discrete_trajectory None)
             2%nat (sample_config 1) 0%nat 0%nat {| world := 0%nat; trace := [] |}
             (iteration_events (one_hot (arange 2)) (sample_config 1) 0 1
                               [sample_discrete_trajectory] [INR 1; INR 1])
             [sample_discrete_trajectory]).
    + reflexivity.
    + left. reflexivity.
    + right. right. left. reflexivity.
    + repeat constructor.
  - apply (proj2 batch_rows_equal_trajectory_steps nat unit
             (counting_session sample_continuous_trajectory None)
             (sample_config 1) 0%nat 0%nat {| world := 0%nat; trace := [] |}
             (iteration_events (fun a : list R => a) (sample_config 1) 0 1
                               [sample_continuous_trajectory] [INR 1; INR 1; INR 1])
             [sample_continuous_trajectory]).
    + reflexivity.
    + left. reflexivity.
    + right. right. left. reflexivity.
    + repeat constructor.
Defined.

(** C8.  In any iteration that runs its update, the record of the iteration up
    to the update is: the collection, then the value query, then the update.
    The baseline fed to the update is what the critic returns on the world as
    it is before the update, and the update is applied to that same world: the
    baseline reflects the parameters from before this iteration's update. *)
Theorem critic_queried_before_update {World A X Summary : Type}
    {Sess : Session World A X Summary} (encode : list A -> X) (cfg : config)
    (iteration total : nat) (m : machine World A X)
    (evs before after : list (event A X)) (f : feed_dict X) :
  trace (snd (learn_iteration encode cfg iteration total m)) = trace m ++ evs ->
  evs = before ++ EvTrain f :: after ->
  exists ts w_before sm w_after,
    get_trajectories (world m) = (Ok ts, w_before) /\
    before = [EvCollect ts; EvCriticValue (critic_state_in f) (critic_feedback f)] /\
    critic_value (critic_state_in f) w_before = Ok (critic_feedback f) /\
    run_train f w_before = (Ok sm, w_after).
Proof.
  intros Htr Hsplit.
  destruct (learn_iteration_update _ _ _ _ _ _ _ _ _ Htr Hsplit)
    as (ts & qw & w1 & sm & w2 & Hg & Hq & Ht & Hf & Hb & _).
  exists ts, w1, sm, w2. subst f. simpl.
  repeat split; assumption.
Qed.

Lemma critic_queried_before_update_witness :
  exists ts w_before sm w_after,
    get_trajectories (Session := counting_session (X := list R) sample_continuous_trajectory None)
                     4%nat = (Ok ts, w_before) /\
    ([EvCollect [sample_continuous_trajectory];
      EvCriticValue [[0]; [1]; [2]] [INR 5; INR 5; INR 5]]
     : list (event R (list R)))
    = [EvCollect ts; EvCriticValue [[0]; [1]; [2]] [INR 5; INR 5; INR 5]] /\
    critic_value (Session := counting_session (X := list R) sample_continuous_trajectory None)
                 (X := list R) [[0]; [1]; [2]] w_before
    = Ok [INR 5; INR 5; INR 5] /\
    run_train (Session := counting_session (X := list R) sample_continuous_trajectory None)
      (batch_feed (fun a : list R => a) (sample_config 1)
                  [sample_continuous_trajectory] [INR 5; INR 5; INR 5])
      w_before = (Ok sm, w_after).
Proof.
  apply (critic_queried_before_update
           (Sess := counting_session (X := list R) sample_continuous_trajectory None)
           (fun a : list R => a) (sample_config 1) 7 0
           {| world := 4%nat; trace := [] |}
           (iteration_events (fun a : list R => a) (sample_config 1) 7 1
                             [sample_continuous_trajectory] [INR 5; INR 5; INR 5])
           [EvCollect [sample_continuous_trajectory];
            EvCriticValue [[0]; [1]; [2]] [INR 5; INR 5; INR 5]]
           (closing_events 7 1 [sample_continuous_trajectory])
           (batch_feed (fun a : list R => a) (sample_config 1)
                       [sample_continuous_trajectory] [INR 5; INR 5; INR 5])).
  - reflexivity.
  - reflexivity.
Defined.



Example learn_sample_updates :
  count_train
    (trace (snd (A2C_learn (Sess := counting_session sample_discrete_trajectory None)
                           2 (sample_config 3) {| world := 0%nat; trace := [] |})))
  = 3%nat.
Proof. reflexivity. Qed.

(** ** The entry point and the user's interrupt *)

Lemma try_except_ok {S T : Type} (body : M S T) (handler : exn -> M S T)
    (s s' : S) (v : T) :
  body s = (Ok v, s') -> try_except body handler s = (Ok v, s').
Proof. intros H. unfold try_except. now rewrite H. Qed.

Lemma try_except_raise {S T : Type} (body : M S T) (handler : exn -> M S T)
    (s s' : S) (e : exn) :
  body s = (Raise e, s') -> try_except body handler s = handler e s'.
Proof. intros H. unfold try_except. now rewrite H. Qed.

(** C9, as amended.  Once the environment and the agent have been set up, a
    KeyboardInterrupt never leaves [main]; one raised while the monitor is
    installed or while [learn] runs stops the loop there: [main] returns
    normally and the world stays as the interrupt found it, nothing being
    written or printed afterwards.  An interrupt raised earlier, while the
    environment is created or while the agent of either kind is constructed,
    is outside the guarded block: it leaves [main] uncaught, on the world in
    which it was raised. *)
Theorem interrupt_in_guarded_block_recovered {World Summary : Type}
    {RT : Runtime World Summary} :
  (forall (w w1 : World) (ag : agent) (cfg : config) (a : args),
     setup w = (Ok (ag, cfg, a), w1) ->
     fst (main w) <> Raise KeyboardInterrupt /\
     (forall w2,
        bind (wrappers_Monitor (monitor_path a)) (fun _ => agent_learn ag cfg) w1
        = (Raise KeyboardInterrupt, w2) ->
        main w = (Ok tt, w2))) /\
  (forall (w w1 w2 : World) (a : args),
     parse_args w = (Ok a, w1) ->
     gym_make (environment a) w1 = (Raise KeyboardInterrupt, w2) ->
     main w = (Raise KeyboardInterrupt, w2)) /\
  (forall (w w1 w2 w3 : World) (a : args) (n : nat) (steps : option nat),
     parse_args w = (Ok a, w1) ->
     gym_make (environment a) w1 = (Ok (Discrete n, steps), w2) ->
     A2CDiscrete_init n (monitor_path a) w2 = (Raise KeyboardInterrupt, w3) ->
     main w = (Raise KeyboardInterrupt, w3)) /\
  (forall (w w1 w2 w3 : World) (a : args) (low high : list R)
          (steps : option nat),
     parse_args w = (Ok a, w1) ->
     gym_make (environment a) w1 = (Ok (Box low high, steps), w2) ->
     A2CContinuous_init low high (monitor_path a) w2 = (Raise KeyboardInterrupt, w3) ->
     main w = (Raise KeyboardInterrupt, w3)).
Proof.
  split; [|split; [|split]].
  - intros w w1 ag cfg a Hsetup. unfold main.
    erewrite bind_ok by exact Hsetup. unfold guarded_learn.
    split.
    + destruct (bind (wrappers_Monitor (monitor_path a))
                     (fun _ => agent_learn ag cfg) w1) as [[[]|e] w2] eqn:Hbody.
      * erewrite try_except_ok by exact Hbody. discriminate.
      * erewrite try_except_raise by exact Hbody.
        destruct e; simpl; discriminate.
    + intros w2 Hbody.
      erewrite try_except_raise by exact Hbody. reflexivity.
  - intros w w1 w2 a Hp Hg.
    assert (Hsetup : setup w = (Raise KeyboardInterrupt, w2)).
    { unfold setup. erewrite bind_ok by (apply try_except_ok; exact Hp).
      erewrite bind_raise by exact Hg. reflexivity. }
    unfold main. erewrite bind_raise by exact Hsetup. reflexivity.
  - intros w w1 w2 w3 a n steps Hp Hg Hi.
    assert (Hsetup : setup w = (Raise KeyboardInterrupt, w3)).
    { unfold setup. erewrite bind_ok by (apply try_except_ok; exact Hp).
      erewrite bind_ok by exact Hg. cbn [fst snd].
      erewrite bind_raise by exact Hi. reflexivity. }
    unfold main. erewrite bind_raise by exact Hsetup. reflexivity.
  - intros w w1 w2 w3 a low high steps Hp Hg Hi.
    assert (Hsetup : setup w = (Raise KeyboardInterrupt, w3)).
    { unfold setup. erewrite bind_ok by (apply try_except_ok; exact Hp).
      erewrite bind_ok by exact Hg. cbn [fst snd].
      erewrite bind_raise by exact Hi. reflexivity. }
    unfold main. erewrite bind_raise by exact Hsetup. reflexivity.
Qed.

Lemma interrupt_in_guarded_block_recovered_witness :
  main (RT := sample_runtime (fun w => (Ok (Discrete 2, Some 200%nat), w)) (Some 2%nat))
       0%nat
  = (Ok tt, 2%nat) /\
  main (RT := sample_runtime (fun w => (Raise KeyboardInterrupt, S w)) None) 0%nat
  = (Raise KeyboardInterrupt, 1%nat) /\
  main (RT := sample_runtime_interrupted_init
                (fun w => (Ok (Discrete 2, Some 200%nat), w))) 0%nat
  = (Raise KeyboardInterrupt, 1%nat) /\
  main (RT := sample_runtime_interrupted_init
                (fun w => (Ok (Box [-2] [2], Some 200%nat), w))) 0%nat
  = (Raise KeyboardInterrupt, 1%nat).
Proof.
  split; [|split; [|split]].
  - apply (proj1 (interrupt_in_guarded_block_recovered
                    (RT := sample_runtime
                             (fun w => (Ok (Discrete 2, Some 200%nat), w))
                             (Some 2%nat)))
                 0%nat 0%nat (A2CDiscrete 2) (default_config (Some 200%nat))
                 sample_args).
    + reflexivity.
    + reflexivity.
  - apply (proj1 (proj2 (interrupt_in_guarded_block_recovered
                    (RT := sample_runtime
                             (fun w => (Raise KeyboardInterrupt, S w)) None)))
                 0%nat 0%nat 1%nat sample_args).
    + reflexivity.
    + reflexivity.
  - apply (proj1 (proj2 (proj2 (interrupt_in_guarded_block_recovered
                    (RT := sample_runtime_interrupted_init
                             (fun w => (Ok (Discrete 2, Some 200%nat), w))))))
                 0%nat 0%nat 0%nat 1%nat sample_args 2%nat (Some 200%nat)).
    + reflexivity.
    + reflexivity.
    + reflexivity.
  - apply (proj2 (proj2 (proj2 (interrupt_in_guarded_block_recovered
                    (RT := sample_runtime_interrupted_init
                             (fun w => (Ok (Box [-2] [2], Some 200%nat), w))))))
                 0%nat 0%nat 0%nat 1%nat sample_args [-2] [2] (Some 200%nat)).
    + reflexivity.
    + reflexivity.
    + reflexivity.
Defined.

(** C9, as first stated, fails: an interrupt raised while the environment is
    being created is outside the guarded block and leaves [main] uncaught. *)
Lemma interrupt_during_setup_escapes :
  ~ (forall (World Summary : Type) (RT : Runtime World Summary) (w : World),
        fst (main w) <> Raise KeyboardInterrupt).
Proof.
  intros H.
  apply (H nat unit
           (sample_runtime (fun w => (Raise KeyboardInterrupt, w)) None) 0%nat).
  reflexivity.
Qed.

(** ** Further properties of the actors *)

Lemma one_hot_row_out_of_range (a : Z) (s n : nat) :
  ~ (Z.of_nat s <= a < Z.of_nat (s + n))%Z ->
  map (fun p => if Z.eqb p a then 1 else 0) (map Z.of_nat (seq s n)) = repeat 0 n.
Proof.
  revert s. induction n as [|n IH]; intros s Hout.
  - reflexivity.
  - simpl. destruct (Z.eqb_spec (Z.of_nat s) a) as [He|He]; [lia|].
    f_equal. apply IH. lia.
Qed.

Lemma dot_zero_row (p : list R) (n : nat) :
  sum_R (map2 Rmult p (repeat 0 n)) = 0.
Proof.
  revert n. induction p as [|x p IH]; intros [|n]; simpl; try reflexivity.
  rewrite IH. lra.
Qed.

(** X1.  An action outside [0, nA) matches no possible action: its row of the
    encoding is all zeros, the product-and-sum against any row of
    probabilities is 0, and the guard of the logarithm turns that 0 into
    1e-30. *)
Theorem one_hot_out_of_range (nA : nat) (all_action : list Z) (i : nat) (a : Z)
    (p : list R) :
  nth_error all_action i = Some a ->
  ~ (0 <= a < Z.of_nat nA)%Z ->
  nth_error (one_hot (arange nA) all_action) i = Some (repeat 0 nA) /\
  sum_R (map2 Rmult p (repeat 0 nA)) = 0 /\
  floor_probability (sum_R (map2 Rmult p (repeat 0 nA))) = 1e-30.
Proof.
  intros Hi Hout. split; [|split].
  - unfold one_hot, arange. rewrite nth_error_map, Hi. simpl.
    f_equal. apply one_hot_row_out_of_range. simpl. exact Hout.
  - apply dot_zero_row.
  - rewrite dot_zero_row. unfold floor_probability.
    destruct (Req_dec_T 0 0) as [_|Hn]; [reflexivity|contradiction].
Qed.

Lemma one_hot_out_of_range_witness :
  nth_error (one_hot (arange 3) [1%Z; 7%Z]) 1 = Some (repeat 0 3) /\
  sum_R (map2 Rmult [0.2; 0.3; 0.5] (repeat 0 3)) = 0 /\
  floor_probability (sum_R (map2 Rmult [0.2; 0.3; 0.5] (repeat 0 3))) = 1e-30.
Proof.
  apply (one_hot_out_of_range 3 [1%Z; 7%Z] 1 7%Z [0.2; 0.3; 0.5]).
  - reflexivity.
  - simpl. lia.
Defined.

(** X2.  On actions in [0, nA) the encoding loses nothing: two action vectors
    with the same encoding are equal. *)
Theorem one_hot_injective (nA : nat) (l1 l2 : list Z) :
  Forall (fun a => (0 <= a < Z.of_nat nA)%Z) l1 ->
  Forall (fun a => (0 <= a < Z.of_nat nA)%Z) l2 ->
  one_hot (arange nA) l1 = one_hot (arange nA) l2 ->
  l1 = l2.
Proof.
  intros H1. revert l2. induction H1 as [|a1 l1 Ha1 H1 IH]; intros l2 H2 Heq.
  - destruct l2; [reflexivity|discriminate].
  - destruct H2 as [|a2 l2 Ha2 H2]; [discriminate|].
    unfold one_hot in Heq. simpl in Heq. injection Heq as Hrow Hrest.
    f_equal; [|now apply IH].
    assert (Hn : nth (Z.to_nat a1)
                   (map (fun p => if Z.eqb p a1 then 1 else 0) (arange nA)) 0
                 = nth (Z.to_nat a1)
                   (map (fun p => if Z.eqb p a2 then 1 else 0) (arange nA)) 0)
      by now rewrite Hrow.
    unfold arange in Hn. rewrite !one_hot_row_nth in Hn by lia.
    simpl in Hn. rewrite Z2Nat.id in Hn by lia.
    rewrite Z.eqb_refl in Hn.
    destruct (Z.eqb_spec a1 a2); [assumption|lra].
Qed.

Lemma one_hot_injective_witness : [2%Z; 0%Z] = [2%Z; 0%Z].
Proof.
  apply (one_hot_injective 3 [2%Z; 0%Z] [2%Z; 0%Z]).
  - repeat constructor; simpl; lia.
  - repeat constructor; simpl; lia.
  - reflexivity.
Defined.

(** X3.  With bounds in order, the clipped sample is the sample itself when it
    lies within the bounds, the lower bound when it is below, the upper bound
    when it is above; clipping twice changes nothing. *)
Theorem clip_by_value_cases (t lo hi : R) :
  lo <= hi ->
  (lo <= t <= hi -> clip_by_value t lo hi = t) /\
  (t < lo -> clip_by_value t lo hi = lo) /\
  (hi < t -> clip_by_value t lo hi = hi) /\
  clip_by_value (clip_by_value t lo hi) lo hi = clip_by_value t lo hi.
Proof.
  intros Hle. unfold clip_by_value.
  repeat split; intros;
    repeat (unfold Rmax, Rmin; destruct (Rle_dec _ _)); lra.
Qed.

Lemma clip_by_value_cases_witness :
  clip_by_value 0.5 (-2) 2 = 0.5 /\ clip_by_value (-3) (-2) 2 = -2 /\
  clip_by_value 1000 (-2) 2 = 2.
Proof.
  assert (H : -2 <= 2) by lra.
  destruct (clip_by_value_cases 0.5 (-2) 2 H) as (H1 & _).
  destruct (clip_by_value_cases (-3) (-2) 2 H) as (_ & H2 & _).
  destruct (clip_by_value_cases 1000 (-2) 2 H) as (_ & _ & H3 & _).
  split; [apply H1; lra|]. split; [apply H2; lra|apply H3; lra].
Defined.

(** X4.  With the bounds out of order the clip ignores the sample: the action
    is always the lower bound, which then lies above the upper one. *)
Theorem clip_by_value_inverted_bounds (ag : continuous_agent)
    (input_state : list R) (z : R) :
  clip_high ag < clip_low ag ->
  choose_action ag input_state z = [clip_low ag].
Proof.
  intros Hinv. unfold choose_action, clip_by_value. f_equal.
  unfold Rmax, Rmin. repeat destruct (Rle_dec _ _); lra.
Qed.

Lemma clip_by_value_inverted_bounds_witness :
  choose_action
    {| theta := {| mu_w := [1]; mu_b := 0; sigma_w := [1]; sigma_b := 0 |};
       clip_low := 2; clip_high := -2 |} [0] 0.3 = [2].
Proof.
  apply (clip_by_value_inverted_bounds
           {| theta := {| mu_w := [1]; mu_b := 0; sigma_w := [1]; sigma_b := 0 |};
              clip_low := 2; clip_high := -2 |} [0] 0.3).
  simpl. lra.
Defined.

Lemma one_hot_row_binary (a : Z) (l : list Z) :
  Forall (fun x => x = 0 \/ x = 1) (map (fun p => if Z.eqb p a then 1 else 0) l).
Proof.
  induction l as [|p l IH]; simpl; constructor; [|exact IH].
  destruct (Z.eqb p a); [now right|now left].
Qed.

Lemma count_ones_repeat_zero (n : nat) : count_ones (repeat 0 n) = 0%nat.
Proof.
  induction n as [|n IH]; [reflexivity|].
  simpl repeat. rewrite count_ones_cons, IH.
  destruct (Req_dec_T 0 1); [lra|reflexivity].
Qed.

(** X19.  Whatever the actions, the encoded action matrix has one row per
    action, every row has [nA] entries, each 0 or 1, and no row holds more
    than one 1. *)
Theorem one_hot_shape (nA : nat) (all_action : list Z) :
  length (one_hot (arange nA) all_action) = length all_action /\
  Forall (fun row => length row = nA /\
                     Forall (fun x => x = 0 \/ x = 1) row /\
                     (count_ones row <= 1)%nat)
         (one_hot (arange nA) all_action).
Proof.
  split; [unfold one_hot; apply length_map|].
  apply Forall_forall. intros row Hrow.
  unfold one_hot in Hrow. apply in_map_iff in Hrow.
  destruct Hrow as (a & <- & _).
  split; [|split].
  - unfold arange. now rewrite !length_map, length_seq.
  - apply one_hot_row_binary.
  - unfold arange. destruct (Z_lt_le_dec a 0) as [Hneg|Hpos].
    + rewrite one_hot_row_out_of_range by (simpl; lia).
      rewrite count_ones_repeat_zero. lia.
    + rewrite count_ones_row by exact Hpos.
      destruct (_ && _); lia.
Qed.

(** ** The selected probabilities and the critic losses *)

(** X6.  For rows of [nA] probabilities, each between 0 and 1 (0 included,
    as an underflowing softmax returns it), and taken actions in [0, nA),
    every selected probability lies in [0, 1]; after the guard of line 116
    the argument of the logarithm lies in (0, 1], so the logarithm is not
    positive; a selected probability of 0 reaches the logarithm as 1e-30. *)
Theorem good_probabilities_floored (nA : nat) (prob_na : list (list R))
    (all_action : list Z) :
  Forall (fun a => (0 <= a < Z.of_nat nA)%Z) all_action ->
  Forall (fun p => length p = nA) prob_na ->
  Forall (Forall (fun q => 0 <= q <= 1)) prob_na ->
  Forall (fun g => 0 <= g <= 1 /\
                   0 < floor_probability g <= 1 /\
                   ln (floor_probability g) <= 0 /\
                   (g = 0 -> floor_probability g = 1e-30))
         (good_probabilities prob_na (one_hot (arange nA) all_action)).
Proof.
  intros Ha Hl Hq.
  rewrite good_probabilities_one_hot by assumption.
  revert all_action Ha Hq.
  induction Hl as [|p prob_na Hlen Hl IH]; intros all_action Ha Hq.
  - constructor.
  - destruct Ha as [|a all_action Hr Ha]; [constructor|].
    inversion Hq as [|? ? Hp Hrest]; subst.
    simpl. constructor; [|now apply IH].
    assert (Hg : 0 <= nth (Z.to_nat a) p 0 <= 1).
    { rewrite Forall_forall in Hp. apply Hp. apply nth_In. lia. }
    set (g := nth (Z.to_nat a) p 0) in *.
    assert (Hf : 0 < floor_probability g <= 1).
    { unfold floor_probability. destruct (Req_dec_T g 0); lra. }
    split; [exact Hg|]. split; [exact Hf|]. split.
    + destruct Hf as [Hf0 [Hf1|Hf1]].
      * pose proof (ln_increasing _ 1 Hf0 Hf1) as Hln.
        rewrite ln_1 in Hln. lra.
      * rewrite Hf1, ln_1. lra.
    + intros Hz. unfold floor_probability.
      destruct (Req_dec_T g 0); [reflexivity|contradiction].
Qed.

Lemma good_probabilities_floored_witness :
  Forall (fun g => 0 <= g <= 1 /\
                   0 < floor_probability g <= 1 /\
                   ln (floor_probability g) <= 0 /\
                   (g = 0 -> floor_probability g = 1e-30))
         (good_probabilities [[1; 0]; [0.25; 0.75]]
                             (one_hot (arange 2) [1%Z; 0%Z])).
Proof.
  apply (good_probabilities_floored 2 [[1; 0]; [0.25; 0.75]] [1%Z; 0%Z]).
  - repeat constructor; simpl; lia.
  - repeat constructor.
  - repeat constructor; lra.
Defined.

Lemma sum_squares_nonneg (l : list R) : 0 <= sum_R (map (fun d => d * d) l).
Proof.
  induction l as [|d l IH]; simpl; [lra|]. nra.
Qed.

Lemma sum_squares_zero (l : list R) :
  sum_R (map (fun d => d * d) l) = 0 <-> Forall (fun d => d = 0) l.
Proof.
  induction l as [|d l IH]; simpl.
  - split; [constructor|reflexivity].
  - pose proof (sum_squares_nonneg l) as Hl. split.
    + intros H. assert (Hd : d = 0) by nra.
      constructor; [exact Hd|]. apply IH. nra.
    + intros H. inversion H as [|? ? Hd Hrest]; subst.
      apply IH in Hrest. rewrite Hrest. lra.
Qed.

Lemma mean_R_zero (l : list R) :
  l <> [] -> (mean_R l = 0 <-> sum_R l = 0).
Proof.
  intros Hne. unfold mean_R.
  assert (Hn : 0 < INR (length l)).
  { apply lt_0_INR. destruct l; [contradiction|simpl; lia]. }
  split.
  - intros H. apply (Rmult_eq_compat_r (INR (length l))) in H.
    unfold Rdiv in H. rewrite Rmult_assoc, Rinv_l in H by lra. lra.
  - intros ->. unfold Rdiv. lra.
Qed.

Lemma in_broadcast_difference (target value : list R) (d : R) :
  In d (concat (broadcast_difference target value)) <->
  exists t v, In t target /\ In v value /\ d = t - v.
Proof.
  unfold broadcast_difference. rewrite in_concat. split.
  - intros (row & Hrow & Hd). apply in_map_iff in Hrow.
    destruct Hrow as (v & <- & Hv). apply in_map_iff in Hd.
    destruct Hd as (t & <- & Ht). now exists t, v.
  - intros (t & v & Ht & Hv & ->).
    exists (map (fun t0 => t0 - v) target). split.
    + apply in_map_iff. now exists v.
    + apply in_map_iff. now exists t.
Qed.

(** X7.  The critic loss of the discrete learner is a mean over all pairs of a
    return and a value estimate, one matrix entry per pair: the matrix has as
    many rows as values and as many columns as returns, and the loss is zero
    exactly when every return equals every value estimate.  Hence a critic
    that predicts each return exactly still has a positive loss as soon as two
    returns differ. *)
Theorem discrete_critic_loss_pairs (target value : list R) :
  target <> [] -> value <> [] ->
  length (broadcast_difference target value) = length value /\
  Forall (fun row => length row = length target)
         (broadcast_difference target value) /\
  0 <= discrete_critic_loss target value /\
  (discrete_critic_loss target value = 0 <->
   forall t v, In t target -> In v value -> t = v) /\
  (forall a b, In a target -> In b target -> a <> b ->
     0 < discrete_critic_loss target target).
Proof.
  intros Ht Hv.
  assert (Hne : forall tg vl : list R, tg <> [] -> vl <> [] ->
            map (fun d => d * d) (concat (broadcast_difference tg vl)) <> []).
  { intros [|t tg] [|v vl] H1 H2; try contradiction. discriminate. }
  assert (Hpos : forall tg vl : list R, tg <> [] -> vl <> [] ->
            0 <= discrete_critic_loss tg vl).
  { intros tg vl H1 H2. unfold discrete_critic_loss, mean_R.
    pose proof (sum_squares_nonneg (concat (broadcast_difference tg vl))) as HS.
    assert (Hn : 0 < INR (length (map (fun d => d * d)
                                      (concat (broadcast_difference tg vl))))).
    { apply lt_0_INR. specialize (Hne tg vl H1 H2).
      destruct (map _ _); [contradiction|simpl; lia]. }
    unfold Rdiv. apply Rmult_le_pos; [exact HS|].
    apply Rlt_le. now apply Rinv_0_lt_compat. }
  assert (Hzero : forall tg vl : list R, tg <> [] -> vl <> [] ->
            (discrete_critic_loss tg vl = 0 <->
             forall t v, In t tg -> In v vl -> t = v)).
  { intros tg vl H1 H2. unfold discrete_critic_loss.
    rewrite mean_R_zero by now apply Hne.
    rewrite sum_squares_zero, Forall_forall. split.
    - intros H t v Hin1 Hin2.
      assert (Hd : t - v = 0).
      { apply H. apply in_broadcast_difference. now exists t, v. }
      lra.
    - intros H d Hd. apply in_broadcast_difference in Hd.
      destruct Hd as (t & v & Hin1 & Hin2 & ->).
      rewrite (H t v Hin1 Hin2). lra. }
  split; [|split; [|split; [|split]]].
  - unfold broadcast_difference. apply length_map.
  - unfold broadcast_difference. apply Forall_forall. intros row Hrow.
    apply in_map_iff in Hrow. destruct Hrow as (v & <- & _). apply length_map.
  - now apply Hpos.
  - now apply Hzero.
  - intros a b Ha Hb Hab.
    destruct (Hpos target target Ht Ht) as [Hlt|Heq]; [exact Hlt|].
    exfalso. apply Hab. symmetry in Heq.
    apply (proj1 (Hzero target target Ht Ht)); assumption.
Qed.

Lemma discrete_critic_loss_pairs_witness :
  0 < discrete_critic_loss [1; 3] [1; 3].
Proof.
  destruct (discrete_critic_loss_pairs [1; 3] [1; 3]) as (_ & _ & _ & _ & H).
  - discriminate.
  - discriminate.
  - apply (H 1 3); simpl; auto. lra.
Defined.

Example discrete_critic_loss_sample :
  discrete_critic_loss [1; 3] [1; 3] = 2.
Proof.
  unfold discrete_critic_loss, mean_R. simpl. lra.
Qed.

Lemma map2_squares_zero (target value : list R) :
  length target = length value ->
  (Forall (fun d => d = 0) (map2 (fun t v => (t - v) * (t - v)) target value)
   <-> target = value).
Proof.
  revert value. induction target as [|t target IH]; intros [|v value] Hlen;
    simpl in *; try discriminate.
  - split; [reflexivity|constructor].
  - injection Hlen as Hlen. split.
    + intros H. inversion H as [|? ? Hd Hrest]; subst.
      apply IH in Hrest; [|exact Hlen]. f_equal; [nra|exact Hrest].
    + intros Heq. injection Heq as -> ->.
      constructor; [lra|]. now apply IH.
Qed.

(** X8.  The critic loss of the continuous learner compares each return with
    the value estimate of the same step: for a non-empty batch with as many
    value estimates as returns it is never negative, and it is zero exactly
    when the estimates equal the returns. *)
Theorem continuous_critic_loss_zero (target value : list R) :
  target <> [] -> length target = length value ->
  0 <= continuous_critic_loss target value /\
  (continuous_critic_loss target value = 0 <-> target = value).
Proof.
  intros Hne Hlen.
  assert (Hsq : map2 (fun t v => (t - v) * (t - v)) target value
                = map (fun d => d * d) (map2 Rminus target value)).
  { clear Hne. revert value Hlen.
    induction target as [|t target IH]; intros [|v value] Hlen;
      simpl in *; try discriminate; [reflexivity|].
    f_equal. apply IH. now injection Hlen. }
  assert (Hl : map2 (fun t v => (t - v) * (t - v)) target value <> []).
  { destruct target, value; simpl in *; try discriminate. contradiction. }
  split.
  - unfold continuous_critic_loss, mean_R. unfold Rdiv.
    apply Rmult_le_pos.
    + rewrite Hsq. apply sum_squares_nonneg.
    + apply Rlt_le, Rinv_0_lt_compat, lt_0_INR.
      destruct (map2 _ _ _); [contradiction|simpl; lia].
  - unfold continuous_critic_loss. rewrite mean_R_zero by exact Hl.
    rewrite <- (map2_squares_zero target value Hlen).
    rewrite Hsq at 1. rewrite sum_squares_zero.
    rewrite Hsq. rewrite !Forall_forall. split.
    + intros H d Hd. apply in_map_iff in Hd. destruct Hd as (x & <- & Hx).
      rewrite (H x Hx). lra.
    + intros H x Hx.
      assert (Hxx : x * x = 0) by (apply H; apply in_map_iff; now exists x).
      nra.
Qed.

Lemma continuous_critic_loss_zero_witness :
  continuous_critic_loss [1; 3] [1; 3] = 0.
Proof.
  destruct (continuous_critic_loss_zero [1; 3] [1; 3]) as (_ & H).
  - discriminate.
  - reflexivity.
  - apply H. reflexivity.
Defined.

(** ** Further properties of the training loop *)

Lemma learn_iteration_outcome {World A X Summary : Type}
    {Sess : Session World A X Summary} (encode : list A -> X) (cfg : config)
    (iteration total : nat) (m : machine World A X) :
  exists k ts qw,
    trace (snd (learn_iteration encode cfg iteration total m))
    = trace m ++ firstn k (iteration_events encode cfg iteration
                                            (total + length ts) ts qw) /\
    (forall v, fst (learn_iteration encode cfg iteration total m) = Ok v ->
               k = 6%nat /\ v = (total + length ts)%nat) /\
    (forall e, fst (learn_iteration encode cfg iteration total m) = Raise e ->
               (k < 6)%nat).
Proof.
  unfold learn_iteration.
  destruct (get_trajectories (world m)) as [[ts|e] w1] eqn:Hget.
  2:{ erewrite bind_raise by (apply perform_raise; exact Hget).
      exists 0%nat, [], []. simpl. rewrite app_nil_r.
      split; [reflexivity|]. split; [discriminate|]. intros; lia. }
  erewrite bind_ok by (apply perform_ok; exact Hget).
  assert (Hshape : forall k qw (r : result nat) (m' : machine World A X),
    trace m' = trace m ++ firstn k (iteration_events encode cfg iteration
                                                     (total + length ts) ts qw) ->
    (forall v, r = Ok v -> k = 6%nat /\ v = (total + length ts)%nat) ->
    (forall e, r = Raise e -> (k < 6)%nat) ->
    exists k0 ts0 qw0,
      trace (snd (r, m'))
      = trace m ++ firstn k0 (iteration_events encode cfg iteration
                                               (total + length ts0) ts0 qw0) /\
      (forall v, fst (r, m') = Ok v -> k0 = 6%nat /\ v = (total + length ts0)%nat) /\
      (forall e, fst (r, m') = Raise e -> (k0 < 6)%nat)).
  { intros k qw r m' Htr Hok Hraise. exists k, ts, qw. auto. }
  destruct ts as [|t0 ts0] eqn:Hts.
  { erewrite bind_raise by apply np_concatenate_nil.
    apply (Hshape 1%nat []); [reflexivity|discriminate|intros; lia]. }
  rewrite <- Hts in *.
  assert (Hne : ts <> []) by (rewrite Hts; discriminate).
  clear Hts t0 ts0.
  erewrite bind_ok by (apply np_concatenate_map_ok; exact Hne).
  erewrite bind_ok by (apply np_concatenate_map_ok; exact Hne).
  erewrite bind_ok by (apply (np_concatenate_map_ok
     (fun t => discount_rewards (reward t) (gamma cfg))); exact Hne).
  unfold get_critic_value.
  destruct (critic_value (concat (map state ts)) w1) as [qw|e] eqn:Hq.
  2:{ erewrite bind_raise by (apply perform_raise; simpl; rewrite Hq; reflexivity).
      apply (Hshape 1%nat []); [reflexivity|discriminate|intros; lia]. }
  erewrite bind_ok by (apply perform_ok; simpl; rewrite Hq; reflexivity).
  fold (pooled_returns (gamma cfg) ts). fold (batch_feed encode cfg ts qw).
  destruct (run_train (batch_feed encode cfg ts qw) w1) as [[sm|e] w2] eqn:Ht.
  2:{ erewrite bind_raise by (apply perform_raise; simpl; exact Ht).
      apply (Hshape 2%nat qw); [|discriminate|intros; lia].
      simpl. now rewrite <- !app_assoc. }
  erewrite bind_ok by (apply perform_ok; simpl; exact Ht).
  destruct (add_summary sm iteration w2) as [[[]|e] w3] eqn:Ha.
  2:{ erewrite bind_raise by (apply perform_raise; simpl; exact Ha).
      apply (Hshape 3%nat qw); [|discriminate|intros; lia].
      simpl. now rewrite <- !app_assoc. }
  erewrite bind_ok by (apply perform_ok; simpl; exact Ha).
  destruct (flush w3) as [[[]|e] w4] eqn:Hf.
  2:{ erewrite bind_raise by (apply perform_raise; simpl; exact Hf).
      apply (Hshape 4%nat qw); [|discriminate|intros; lia].
      simpl. now rewrite <- !app_assoc. }
  erewrite bind_ok by (apply perform_ok; simpl; exact Hf).
  destruct (print_iteration_stats iteration
              (map (fun t => sum_R (reward t)) ts)
              (map (fun t => length (reward t)) ts)
              (total + length ts) w4) as [[[]|e] w5] eqn:Hp.
  2:{ erewrite bind_raise by (apply perform_raise; simpl; exact Hp).
      apply (Hshape 5%nat qw); [|discriminate|intros; lia].
      simpl. now rewrite <- !app_assoc. }
  erewrite bind_ok by (apply perform_ok; simpl; exact Hp).
  unfold ret. apply (Hshape 6%nat qw).
  - simpl. now rewrite <- !app_assoc.
  - intros v Hv. injection Hv as <-. split; reflexivity.
  - discriminate.
Qed.

Lemma learn_loop_raise {World A X Summary : Type}
    {Sess : Session World A X Summary} (encode : list A -> X) (cfg : config)
    (n s total : nat) (m : machine World A X) (e : exn) :
  fst (for_each (seq s n) (learn_iteration encode cfg) total m) = Raise e ->
  exists batches k ts qw,
    (length batches < n)%nat /\ (k < 6)%nat /\
    trace (snd (for_each (seq s n) (learn_iteration encode cfg) total m))
    = trace m ++ run_events encode cfg s total batches
      ++ firstn k (iteration_events encode cfg (s + length batches)
                     (total + list_sum (map (fun b => length (fst b)) batches)
                      + length ts) ts qw).
Proof.
  revert s total m. induction n as [|n IH]; intros s total m Hraise.
  - discriminate.
  - simpl seq in *. simpl for_each in *.
    destruct (learn_iteration_outcome encode cfg s total m)
      as (k & ts & qw & Htr & Hok & Hr).
    destruct (learn_iteration encode cfg s total m) as [[v|e1] m1] eqn:Hit.
    + erewrite bind_ok in * by exact Hit.
      destruct (Hok v eq_refl) as [-> ->]. cbn [fst snd] in Htr.
      destruct (IH (S s) (total + length ts)%nat m1 Hraise)
        as (batches & k' & ts' & qw' & Hlen & Hk & Htr').
      exists ((ts, qw) :: batches), k', ts', qw'.
      split; [simpl; lia|]. split; [exact Hk|].
      rewrite Htr', Htr. cbn [run_events length map fst list_sum].
      rewrite (firstn_all2 (n := 6)) by (simpl; lia).
      rewrite <- !app_assoc.
      replace (S s + length batches)%nat with (s + S (length batches))%nat by lia.
      replace (total + length ts
               + list_sum (map (fun b : list (trajectory A) * list R =>
                                  length (fst b)) batches)
               + length ts')%nat
        with (total
              + list_sum (length ts :: map (fun b : list (trajectory A) * list R =>
                                              length (fst b)) batches)
              + length ts')%nat by (simpl; lia).
      reflexivity.
    + erewrite bind_raise in * by exact Hit. cbn [fst snd] in *.
      exists [], k, ts, qw.
      split; [simpl; lia|]. split; [now apply (Hr e1)|].
      simpl. rewrite Htr.
      replace (s + 0)%nat with s by lia.
      replace (total + 0 + length ts)%nat with (total + length ts)%nat by lia.
      reflexivity.
Qed.

(** X9.  A run of [learn] that raises stops where it fails: the record is
    that of some complete iterations, fewer than [n_iter], followed by the
    part of one more iteration that ran before the failure, and nothing
    after it. *)
Theorem learn_stops_at_first_failure {World A X Summary : Type}
    {Sess : Session World A X Summary} (encode : list A -> X) (cfg : config)
    (m : machine World A X) (e : exn) :
  fst (learn encode cfg m) = Raise e ->
  exists batches k ts qw,
    (length batches < n_iter cfg)%nat /\ (k < 6)%nat /\
    trace (snd (learn encode cfg m))
    = trace m ++ run_events encode cfg 0 0 batches
      ++ firstn k (iteration_events encode cfg (length batches)
                     (list_sum (map (fun b => length (fst b)) batches)
                      + length ts) ts qw).
Proof.
  unfold learn. intros Hraise.
  destruct (for_each (seq 0 (n_iter cfg)) (learn_iteration encode cfg) 0%nat m)
    as [[v|e1] m1] eqn:Hloop.
  - erewrite bind_ok in Hraise by exact Hloop. discriminate.
  - erewrite bind_raise by exact Hloop.
    destruct (learn_loop_raise encode cfg (n_iter cfg) 0 0 m e1)
      as (batches & k & ts & qw & Hlen & Hk & Htr).
    + now rewrite Hloop.
    + rewrite Hloop in Htr. exists batches, k, ts, qw.
      split; [exact Hlen|]. split; [exact Hk|exact Htr].
Qed.

Lemma learn_stops_at_first_failure_witness :
  exists batches k ts qw,
    (length batches < 5)%nat /\ (k < 6)%nat /\
    trace (snd (learn (Sess := counting_session sample_continuous_trajectory
                                                (Some 2%nat))
                      (fun a : list R => a) (sample_config 5)
                      {| world := 0%nat; trace := [] |}))
    = [] ++ run_events (fun a : list R => a) (sample_config 5) 0 0 batches
      ++ firstn k (iteration_events (fun a : list R => a) (sample_config 5)
                     (length batches)
                     (list_sum (map (fun b => length (fst b)) batches)
                      + length ts) ts qw).
Proof.
  apply (learn_stops_at_first_failure
           (Sess := counting_session sample_continuous_trajectory (Some 2%nat))
           (fun a : list R => a) (sample_config 5)
           {| world := 0%nat; trace := [] |} KeyboardInterrupt).
  reflexivity.
Defined.

(** X10.  When the collector returns no trajectory, the iteration fails with
    ValueError at the first concatenation: the critic is not queried, no
    update is run, and a run of [learn] with at least one iteration ends
    there. *)
Theorem empty_batch_raises_ValueError {World A X Summary : Type}
    {Sess : Session World A X Summary} (encode : list A -> X) (cfg : config)
    (iteration total : nat) (m : machine World A X) (w1 : World) :
  get_trajectories (world m) = (Ok [], w1) ->
  learn_iteration encode cfg iteration total m
  = (Raise ValueError, {| world := w1; trace := trace m ++ [EvCollect []] |}) /\
  ((0 < n_iter cfg)%nat ->
   learn encode cfg m
   = (Raise ValueError, {| world := w1; trace := trace m ++ [EvCollect []] |})).
Proof.
  intros Hget.
  assert (Hit : forall i t,
    learn_iteration encode cfg i t m
    = (Raise ValueError, {| world := w1; trace := trace m ++ [EvCollect []] |})).
  { intros i t. unfold learn_iteration.
    erewrite bind_ok by (apply perform_ok; exact Hget).
    erewrite bind_raise by apply np_concatenate_nil. reflexivity. }
  split; [apply Hit|].
  intros Hn. unfold learn.
  destruct (n_iter cfg) as [|n]; [lia|].
  simpl seq. simpl for_each.
  erewrite bind_raise; [reflexivity|].
  erewrite bind_raise; [reflexivity|]. apply Hit.
Qed.

Lemma empty_batch_raises_ValueError_witness :
  learn (Sess := {| get_trajectories := fun w : nat => (Ok [], S w);
                    critic_value := fun _ _ => Ok [];
                    run_train := fun _ w => (Ok tt, w);
                    add_summary := fun _ _ w => (Ok tt, w);
                    flush := fun w => (Ok tt, w);
                    print_iteration_stats := fun _ _ _ _ w => (Ok tt, w) |})
        (fun a : list R => a) (sample_config 3)
        {| world := 0%nat; trace := [] |}
  = (Raise ValueError, {| world := 1%nat; trace := [] ++ [EvCollect []] |}).
Proof.
  apply (empty_batch_raises_ValueError
           (Sess := {| get_trajectories := fun w : nat => (Ok [], S w);
                       critic_value := fun _ _ => Ok [];
                       run_train := fun _ w => (Ok tt, w);
                       add_summary := fun _ _ w => (Ok tt, w);
                       flush := fun w => (Ok tt, w);
                       print_iteration_stats := fun _ _ _ _ w => (Ok tt, w) |})
           (fun a : list R => a) (sample_config 3) 0 0
           {| world := 0%nat; trace := [] |} 1%nat).
  - reflexivity.
  - simpl. lia.
Defined.

Lemma reports_app {A X : Type} (l1 l2 : list (event A X)) :
  reports (l1 ++ l2) = reports l1 ++ reports l2.
Proof. unfold reports. apply flat_map_app. Qed.

Lemma collected_app {A X : Type} (l1 l2 : list (event A X)) :
  collected (l1 ++ l2) = collected l1 ++ collected l2.
Proof. unfold collected. apply flat_map_app. Qed.

Lemma reports_run_events {A X : Type} (encode : list A -> X) (cfg : config)
    (batches : list (list (trajectory A) * list R)) (s total : nat) :
  reports (run_events encode cfg s total batches)
  = combine (seq s (length batches))
            (running_totals total (map (fun b => length (fst b)) batches)) /\
  collected (run_events encode cfg s total batches) = map fst batches.
Proof.
  revert s total. induction batches as [|[ts qw] rest IH]; intros s total.
  - split; reflexivity.
  - cbn [run_events]. rewrite reports_app, collected_app.
    destruct (IH (S s) (total + length ts)%nat) as [-> ->].
    split; reflexivity.
Qed.

(** X11.  In a run of [learn] that returns, the reporter is called once per
    iteration, with the iteration numbers 0, 1, ..., n_iter - 1 in order and
    with the running number of trajectories collected so far; the number of
    batches collected is [n_iter]. *)
Theorem reports_follow_the_batches {World A X Summary : Type}
    {Sess : Session World A X Summary} (encode : list A -> X) (cfg : config)
    (m : machine World A X) (evs : list (event A X)) :
  fst (learn encode cfg m) = Ok tt ->
  trace (snd (learn encode cfg m)) = trace m ++ evs ->
  length (collected evs) = n_iter cfg /\
  reports evs
  = combine (seq 0 (n_iter cfg))
            (running_totals 0 (map (@length (trajectory A)) (collected evs))).
Proof.
  intros Hok Htr.
  destruct (learn_spec encode cfg m) as (evs0 & Htr0 & _ & Hshape).
  rewrite Htr in Htr0. apply app_inv_head in Htr0. subst evs0.
  destruct (Hshape Hok) as (batches & Hlen & Hevs & _).
  destruct (reports_run_events encode cfg batches 0 0) as [Hrep Hcol].
  rewrite Hevs, Hrep, Hcol, length_map, Hlen, map_map.
  split; reflexivity.
Qed.

Lemma reports_follow_the_batches_witness :
  reports (run_events (A := R) (fun a : list R => a) (sample_config 3) 0 0
             [([sample_continuous_trajectory], [INR 1; INR 1; INR 1]);
              ([sample_continuous_trajectory], [INR 2; INR 2; INR 2]);
              ([sample_continuous_trajectory], [INR 3; INR 3; INR 3])])
  = [(0, 1); (1, 2); (2, 3)]%nat.
Proof.
  apply (reports_follow_the_batches
           (Sess := counting_session sample_continuous_trajectory None)
           (fun a : list R => a) (sample_config 3)
           {| world := 0%nat; trace := [] |}).
  - reflexivity.
  - reflexivity.
Defined.

Lemma sum_R_concat (l : list (list R)) :
  sum_R (concat l) = sum_R (map sum_R l).
Proof.
  induction l as [|x l IH]; simpl; [reflexivity|].
  now rewrite sum_R_app, IH.
Qed.

Lemma sum_R_INR (l : list nat) : sum_R (map INR l) = INR (list_sum l).
Proof.
  induction l as [|n l IH]; simpl; [reflexivity|].
  now rewrite plus_INR, IH.
Qed.

Lemma mean_R_times_length (l : list R) :
  l <> [] -> mean_R l * INR (length l) = sum_R l.
Proof.
  intros Hne. unfold mean_R.
  assert (Hn : 0 < INR (length l)).
  { apply lt_0_INR. destruct l; [contradiction|simpl; lia]. }
  field. lra.
Qed.

(** X12.  Whenever the update of an iteration runs, the batch is not empty,
    the actor and the critic are fed the same states and the same returns,
    and the two statistics fed for the summary are per-trajectory means: the
    one times the number of trajectories is the sum of all rewards of the
    batch, the other times that number is the number of steps of the batch. *)
Theorem feed_statistics {World A X Summary : Type}
    {Sess : Session World A X Summary} (encode : list A -> X) (cfg : config)
    (iteration total : nat) (m : machine World A X)
    (evs : list (event A X)) (ts : list (trajectory A)) (f : feed_dict X) :
  trace (snd (learn_iteration encode cfg iteration total m)) = trace m ++ evs ->
  In (EvCollect ts) evs -> In (EvTrain f) evs ->
  ts <> [] /\
  actor_input f = critic_state_in f /\
  critic_rewards f = critic_target f /\
  rewards f * INR (length ts) = sum_R (concat (map reward ts)) /\
  episode_lengths f * INR (length ts) = INR (batch_size ts).
Proof.
  intros Htr Hc Ht.
  destruct (in_split _ _ Ht) as (before & after & Hsplit).
  destruct (learn_iteration_update _ _ _ _ _ _ _ _ _ Htr Hsplit)
    as (ts0 & qw & w1 & _ & _ & Hget & _ & _ & Hf & _ & Honly).
  rewrite (Honly ts Hc) in *. clear Honly Hc.
  assert (Hne : ts0 <> []).
  { destruct (learn_iteration_spec encode cfg iteration total m)
      as (evs0 & Htr0 & Hcase).
    rewrite Htr in Htr0. apply app_inv_head in Htr0. subst evs0.
    destruct Hcase as [(e & _ & Hno)|(ts1 & _ & w1' & _ & _ & _ & Hne1 & Hget1 & _)].
    - exfalso. now apply (Hno f).
    - rewrite Hget in Hget1. now injection Hget1 as -> _. }
  subst f. unfold batch_feed, make_feed, batch_size. simpl.
  split; [exact Hne|]. split; [reflexivity|]. split; [reflexivity|].
  assert (Hlen : forall (B : Type) (g : trajectory A -> B),
            length (map g ts0) = length ts0) by (intros; apply length_map).
  split.
  - rewrite <- (Hlen R (fun t => sum_R (reward t))).
    rewrite mean_R_times_length.
    + now rewrite sum_R_concat, map_map.
    + destruct ts0; [contradiction|discriminate].
  - rewrite <- (Hlen nat (fun t => length (reward t))).
    rewrite <- (length_map INR).
    rewrite mean_R_times_length.
    + apply sum_R_INR.
    + destruct ts0; [contradiction|discriminate].
Qed.

Lemma feed_statistics_witness :
  episode_lengths
    (batch_feed (fun a : list R => a) (sample_config 1)
                [sample_continuous_trajectory] [INR 1; INR 1; INR 1])
  * INR (length [sample_continuous_trajectory])
  = INR (batch_size [sample_continuous_trajectory]).
Proof.
  apply (feed_statistics
           (Sess := counting_session sample_continuous_trajectory None)
           (fun a : list R => a) (sample_config 1) 0 0
           {| world := 0%nat; trace := [] |}
           (iteration_events (fun a : list R => a) (sample_config 1) 0 1
                             [sample_continuous_trajectory] [INR 1; INR 1; INR 1])
           [sample_continuous_trajectory]).
  - reflexivity.
  - left. reflexivity.
  - right. right. left. reflexivity.
Defined.

Lemma sum_R_zero (l : list R) : Forall (fun x => x = 0) l -> sum_R l = 0.
Proof.
  induction 1 as [|x l Hx Hl IH]; simpl; [reflexivity|]. rewrite Hx, IH. lra.
Qed.

(** X13.  When the baseline equals the returns at every step, the eligibility
    has one entry per step, each of them zero, and the loss of the discrete
    actor is zero, whatever the policy and the actions taken. *)
Theorem actor_loss_zero_advantage (prob_na actions_taken : list (list R))
    (returns : list R) :
  length prob_na = length returns ->
  length actions_taken = length returns ->
  length (eligibility (good_probabilities prob_na actions_taken) returns returns)
  = length returns /\
  Forall (fun x => x = 0)
         (eligibility (good_probabilities prob_na actions_taken) returns returns) /\
  actor_loss prob_na actions_taken returns returns = 0.
Proof.
  assert (H : forall good : list R,
            Forall (fun x => x = 0) (eligibility good returns returns)).
  { intros good. unfold eligibility.
    generalize (map (fun g => ln (floor_probability g)) good) as logs.
    induction returns as [|r returns IH]; intros [|l logs]; simpl;
      try constructor.
    - lra.
    - apply IH. }
  intros Hp Ha.
  split; [|split; [apply H|]].
  - unfold eligibility, good_probabilities.
    rewrite !length_map2, length_map, length_map2. lia.
  - unfold actor_loss, mean_R. rewrite sum_R_zero by apply H.
    unfold Rdiv. lra.
Qed.

Lemma actor_loss_zero_advantage_witness :
  actor_loss [[0.2; 0.8]; [0.5; 0.5]] [[0; 1]; [1; 0]] [3; -1] [3; -1] = 0.
Proof.
  apply (actor_loss_zero_advantage [[0.2; 0.8]; [0.5; 0.5]] [[0; 1]; [1; 0]] [3; -1]).
  - reflexivity.
  - reflexivity.
Defined.

(** ** Further properties of the entry point *)

(** X14.  Whatever the argument parser raises, a KeyboardInterrupt included,
    [main] ends with SystemExit on the world the parser left: no environment
    is created and nothing is trained. *)
Theorem parse_failure_exits {World Summary : Type} {RT : Runtime World Summary}
    (w w1 : World) (e : exn) :
  parse_args w = (Raise e, w1) ->
  main w = (Raise SystemExit, w1).
Proof.
  intros Hp. unfold main, setup.
  erewrite bind_raise; [reflexivity|].
  erewrite bind_raise; [reflexivity|].
  erewrite try_except_raise by exact Hp. reflexivity.
Qed.

Lemma parse_failure_exits_witness :
  main (RT := {| parse_args := fun w : nat => (Raise KeyboardInterrupt, S w);
                 gym_make := fun _ w => (Ok (Discrete 2, None), w);
                 A2CDiscrete_init := fun _ _ w => (Ok tt, w);
                 A2CContinuous_init := fun _ _ _ w => (Ok tt, w);
                 wrappers_Monitor := fun _ w => (Ok tt, w);
                 discrete_session :=
                   counting_session (X := list (list R)) sample_discrete_trajectory None;
                 continuous_session :=
                   counting_session (X := list R) sample_continuous_trajectory None |})
       0%nat
  = (Raise SystemExit, 1%nat).
Proof.
  apply (parse_failure_exits
           (RT := {| parse_args := fun w : nat => (Raise KeyboardInterrupt, S w);
                     gym_make := fun _ w => (Ok (Discrete 2, None), w);
                     A2CDiscrete_init := fun _ _ w => (Ok tt, w);
                     A2CContinuous_init := fun _ _ _ w => (Ok tt, w);
                     wrappers_Monitor := fun _ w => (Ok tt, w);
                     discrete_session :=
                       counting_session (X := list (list R)) sample_discrete_trajectory None;
                     continuous_session :=
                       counting_session (X := list R) sample_continuous_trajectory None |})
           0%nat 1%nat KeyboardInterrupt).
  reflexivity.
Defined.

(** X15.  For an action space that is neither discrete nor a box, [main] ends
    with NotImplementedError on the world left by the creation of the
    environment: no agent is built, no monitor installed, nothing trained. *)
Theorem unsupported_space_not_implemented {World Summary : Type}
    {RT : Runtime World Summary} (w w1 w2 : World) (a : args)
    (steps : option nat) :
  parse_args w = (Ok a, w1) ->
  gym_make (environment a) w1 = (Ok (OtherSpace, steps), w2) ->
  main w = (Raise NotImplementedError, w2).
Proof.
  intros Hp Hg. unfold main, setup.
  erewrite bind_raise; [reflexivity|].
  erewrite bind_ok by (apply try_except_ok; exact Hp).
  erewrite bind_ok by exact Hg. reflexivity.
Qed.

Lemma unsupported_space_not_implemented_witness :
  main (RT := sample_runtime (fun w => (Ok (OtherSpace, None), S w)) None) 0%nat
  = (Raise NotImplementedError, 1%nat).
Proof.
  apply (unsupported_space_not_implemented
           (RT := sample_runtime (fun w => (Ok (OtherSpace, None), S w)) None)
           0%nat 0%nat 1%nat sample_args None).
  - reflexivity.
  - reflexivity.
Defined.

(** X16.  An exception other than KeyboardInterrupt raised while the monitor
    is installed or while [learn] runs is not caught: [main] ends with that
    same exception on the world in which it was raised. *)
Theorem other_exceptions_propagate {World Summary : Type}
    {RT : Runtime World Summary} (w w1 w2 : World) (ag : agent) (cfg : config)
    (a : args) (e : exn) :
  setup w = (Ok (ag, cfg, a), w1) ->
  bind (wrappers_Monitor (monitor_path a)) (fun _ => agent_learn ag cfg) w1
  = (Raise e, w2) ->
  e <> KeyboardInterrupt ->
  main w = (Raise e, w2).
Proof.
  intros Hsetup Hbody Hne. unfold main.
  erewrite bind_ok by exact Hsetup. unfold guarded_learn.
  erewrite try_except_raise by exact Hbody.
  destruct e; try reflexivity. contradiction.
Qed.

Lemma other_exceptions_propagate_witness :
  main (RT := {| parse_args := fun w : nat => (Ok sample_args, w);
                 gym_make := fun _ w => (Ok (Box [-2] [2], Some 200%nat), w);
                 A2CDiscrete_init := fun _ _ w => (Ok tt, w);
                 A2CContinuous_init := fun _ _ _ w => (Ok tt, w);
                 wrappers_Monitor := fun _ w => (Raise OtherError, S w);
                 discrete_session :=
                   counting_session (X := list (list R)) sample_discrete_trajectory None;
                 continuous_session :=
                   counting_session (X := list R) sample_continuous_trajectory None |})
       0%nat
  = (Raise OtherError, 1%nat).
Proof.
  apply (other_exceptions_propagate
           (RT := {| parse_args := fun w : nat => (Ok sample_args, w);
                     gym_make := fun _ w => (Ok (Box [-2] [2], Some 200%nat), w);
                     A2CDiscrete_init := fun _ _ w => (Ok tt, w);
                     A2CContinuous_init := fun _ _ _ w => (Ok tt, w);
                     wrappers_Monitor := fun _ w => (Raise OtherError, S w);
                     discrete_session :=
                       counting_session (X := list (list R)) sample_discrete_trajectory None;
                     continuous_session :=
                       counting_session (X := list R) sample_continuous_trajectory None |})
           0%nat 0%nat 1%nat A2CContinuous (default_config (Some 200%nat))
           sample_args OtherError).
  - reflexivity.
  - reflexivity.
  - discriminate.
Defined.

(** X17.  When the set-up succeeds, the parser and the creation of the
    environment returned, the agent is the one for the action space of the
    environment (discrete with its number of actions, or continuous for a
    box), and the configuration is the default one: 400 iterations, discount
    factor 0.99. *)
Theorem setup_dispatches_on_action_space {World Summary : Type}
    {RT : Runtime World Summary} (w w' : World) (ag : agent) (cfg : config)
    (a : args) :
  setup w = (Ok (ag, cfg, a), w') ->
  exists w1 sp steps w2,
    parse_args w = (Ok a, w1) /\
    gym_make (environment a) w1 = (Ok (sp, steps), w2) /\
    cfg = default_config steps /\ n_iter cfg = 400%nat /\ gamma cfg = 0.99 /\
    match sp with
    | Discrete n =>
        ag = A2CDiscrete n /\ A2CDiscrete_init n (monitor_path a) w2 = (Ok tt, w')
    | Box low high =>
        ag = A2CContinuous /\
        A2CContinuous_init low high (monitor_path a) w2 = (Ok tt, w')
    | OtherSpace => False
    end.
Proof.
  unfold setup. intros Hs.
  destruct (parse_args w) as [[a0|e] w1] eqn:Hp.
  2:{ erewrite bind_raise in Hs by (erewrite try_except_raise by exact Hp; reflexivity).
      discriminate. }
  erewrite bind_ok in Hs by (apply try_except_ok; exact Hp).
  destruct (gym_make (environment a0) w1) as [[[sp steps]|e] w2] eqn:Hg.
  2:{ erewrite bind_raise in Hs by exact Hg. discriminate. }
  erewrite bind_ok in Hs by exact Hg. cbn [fst snd] in Hs.
  destruct sp as [n|low high|].
  - destruct (A2CDiscrete_init n (monitor_path a0) w2) as [[[]|e] w3] eqn:Hi.
    2:{ erewrite bind_raise in Hs by exact Hi. discriminate. }
    erewrite bind_ok in Hs by exact Hi. unfold ret in Hs.
    injection Hs as <- <- <- <-.
    exists w1, (Discrete n), steps, w2. rewrite Hg. repeat split; assumption.
  - destruct (A2CContinuous_init low high (monitor_path a0) w2) as [[[]|e] w3] eqn:Hi.
    2:{ erewrite bind_raise in Hs by exact Hi. discriminate. }
    erewrite bind_ok in Hs by exact Hi. unfold ret in Hs.
    injection Hs as <- <- <- <-.
    exists w1, (Box low high), steps, w2. rewrite Hg. repeat split; assumption.
  - discriminate.
Qed.

Lemma setup_dispatches_on_action_space_witness :
  exists w1 sp steps w2,
    parse_args (Runtime := sample_runtime (fun w => (Ok (Discrete 2, Some 200%nat), S w)) None)
               0%nat = (Ok sample_args, w1) /\
    gym_make (Runtime := sample_runtime (fun w => (Ok (Discrete 2, Some 200%nat), S w)) None)
             (environment sample_args) w1 = (Ok (sp, steps), w2) /\
    default_config (Some 200%nat) = default_config steps /\
    n_iter (default_config (Some 200%nat)) = 400%nat /\
    gamma (default_config (Some 200%nat)) = 0.99 /\
    match sp with
    | Discrete n =>
        A2CDiscrete 2 = A2CDiscrete n /\
        A2CDiscrete_init
          (Runtime := sample_runtime (fun w => (Ok (Discrete 2, Some 200%nat), S w)) None)
          n (monitor_path sample_args) w2 = (Ok tt, 1%nat)
    | Box low high =>
        A2CDiscrete 2 = A2CContinuous /\
        A2CContinuous_init
          (Runtime := sample_runtime (fun w => (Ok (Discrete 2, Some 200%nat), S w)) None)
          low high (monitor_path sample_args) w2 = (Ok tt, 1%nat)
    | OtherSpace => False
    end.
Proof.
  apply (setup_dispatches_on_action_space
           (RT := sample_runtime (fun w => (Ok (Discrete 2, Some 200%nat), S w)) None)
           0%nat 1%nat (A2CDiscrete 2) (default_config (Some 200%nat)) sample_args).
  reflexivity.
Defined.

Lemma in_world_returns {World A X Summary : Type}
    {Sess : Session World A X Summary} (encode : list A -> X) (cfg : config)
    (w : World) :
  responsive Sess -> exists w', in_world (learn encode cfg) w = (Ok tt, w').
Proof.
  intros Hr. unfold in_world.
  destruct (learn_returns encode cfg {| world := w; trace := [] |} Hr) as (m' & ->).
  now exists (world m').
Qed.

(** X18.  When no call of the runtime raises, the action space is supported
    and every batch is non-empty, [main] returns normally. *)
Theorem main_returns {World Summary : Type} (RT : Runtime World Summary)
    (w : World) :
  runtime_responsive RT -> exists w', main w = (Ok tt, w').
Proof.
  intros (Hp & Hg & Hd & Hc & Hm & Hsd & Hsc).
  unfold main.
  destruct (Hp w) as (a & w1 & Hpa).
  destruct (Hg (environment a) w1) as (sp & steps & w2 & Hgm & Hsp).
  assert (Hguard : forall ag cfg wi,
    exists w', guarded_learn ag cfg a wi = (Ok tt, w')).
  { intros ag cfg wi. unfold guarded_learn.
    destruct (Hm (monitor_path a) wi) as (wm & Hmon).
    assert (Hl : exists w', agent_learn ag cfg wm = (Ok tt, w')).
    { destruct ag; simpl; unfold A2C_learn, A2CContinuous_learn;
        now apply in_world_returns. }
    destruct Hl as (w' & Hl). exists w'.
    apply try_except_ok. erewrite bind_ok by exact Hmon. exact Hl. }
  destruct sp as [n|low high|]; [| |contradiction].
  - destruct (Hd n (monitor_path a) w2) as (w3 & Hi).
    destruct (Hguard (A2CDiscrete n) (default_config steps) w3) as (w' & Hgl).
    exists w'.
    assert (Hsetup : setup w = (Ok (A2CDiscrete n, default_config steps, a), w3)).
    { unfold setup. erewrite bind_ok by (apply try_except_ok; exact Hpa).
      erewrite bind_ok by exact Hgm. cbn [fst snd].
      erewrite bind_ok by exact Hi. reflexivity. }
    erewrite bind_ok by exact Hsetup. exact Hgl.
  - destruct (Hc low high (monitor_path a) w2) as (w3 & Hi).
    destruct (Hguard A2CContinuous (default_config steps) w3) as (w' & Hgl).
    exists w'.
    assert (Hsetup : setup w = (Ok (A2CContinuous, default_config steps, a), w3)).
    { unfold setup. erewrite bind_ok by (apply try_except_ok; exact Hpa).
      erewrite bind_ok by exact Hgm. cbn [fst snd].
      erewrite bind_ok by exact Hi. reflexivity. }
    erewrite bind_ok by exact Hsetup. exact Hgl.
Qed.

Lemma main_returns_witness :
  exists w',
    main (RT := sample_runtime (fun w => (Ok (Box [-2] [2], Some 200%nat), w)) None)
         0%nat = (Ok tt, w').
Proof.
  apply (main_returns
           (sample_runtime (fun w => (Ok (Box [-2] [2], Some 200%nat), w)) None)
           0%nat).
  repeat split; intros; simpl; repeat eexists; discriminate.
Defined.
